(** * framego: models, ORM statement generation and serializers

  A shallow embedding of the packages [models], [orm] and [serializer]
  of framego, and the properties of their specification.

  Conventions of the embedding.
  - A Go [map[string]T] is a [gmap string T].  A [for k, v := range m]
    loop visits the entries in an order Go leaves unspecified: every
    function that ranges over a map takes the order of that loop as an
    explicit list, and the theorems hold for every list that is a
    permutation of the map's entries ([range_of]).
  - A Go [error] built by [fmt.Errorf] is kept as its format string and
    arguments ([Errorf]); [nil] is [None].
  - [interface{}] values are the inductive [Value], with the dynamic
    type that [reflect.TypeOf] observes.
  - [float64] is IEEE 754 binary64 ([spec_float] at precision 53). *)

From Stdlib Require Import ZArith Ascii Floats.SpecFloat.
From stdpp Require Import gmap strings list fin_maps pretty.

Set Warnings "-register-all".

Local Open Scope Z_scope.
Local Open Scope string_scope.
Local Open Scope list_scope.
Local Open Scope stdpp_scope.

(** ** Package reflect (the part the code observes) *)

Module reflect.

Inductive Kind :=
| Invalid | Bool
| Int | Int8 | Int16 | Int32 | Int64
| Uint | Uint8 | Uint16 | Uint32 | Uint64 | Uintptr
| Float32 | Float64 | Complex64 | Complex128
| Array | Chan | Func | Interface | Map | Ptr | Slice
| String | Struct | UnsafePointer.

#[global] Instance Kind_eq_dec : EqDecision Kind.
Proof. solve_decision. Defined.

(** [reflect.Type]: compared by identity, printed by [%v], and asked
    for its [Kind]. *)
Record Type_ := { type_String : string; type_Kind : Kind }.

#[global] Instance Type_eq_dec : EqDecision Type_.
Proof. solve_decision. Defined.

Definition basic (name : string) (k : Kind) : Type_ :=
  {| type_String := name; type_Kind := k |}.

End reflect.

Abbreviation rtype := reflect.Type_.

(** The predeclared numeric types told apart by a type switch. *)
Inductive numtype :=
| t_int | t_int8 | t_int16 | t_int32 | t_int64
| t_uint | t_uint8 | t_uint16 | t_uint32 | t_uint64.

(** A field of a struct value as [reflect] shows it: [Name], [PkgPath]
  (empty exactly for exported fields) and the result of
  [Tag.Get("json")]. *)
Record StructField := {
  sf_Name : string;
  sf_PkgPath : string;
  sf_json : string;
}.

(** [interface{}] values. *)
Inductive Value :=
| VNil                                            (* the nil interface *)
| VBool (b : bool)
| VNum (t : numtype) (n : Z)
| VFloat32 (f : spec_float)
| VFloat64 (f : spec_float)
| VString (s : string)
| VStruct (tname : string) (fields : list (StructField * Value))
| VPtr (tname : string) (target : option Value)   (* [None]: nil pointer *)
| VMap (tname : string) (entries : list (Value * Value))
| VNamed (t : rtype) (underlying : Value)         (* value of a defined scalar type *)
| VOther (t : rtype).                             (* slices, funcs, channels, ... *)

Definition numtype_Type (t : numtype) : rtype :=
  match t with
  | t_int => reflect.basic "int" reflect.Int
  | t_int8 => reflect.basic "int8" reflect.Int8
  | t_int16 => reflect.basic "int16" reflect.Int16
  | t_int32 => reflect.basic "int32" reflect.Int32
  | t_int64 => reflect.basic "int64" reflect.Int64
  | t_uint => reflect.basic "uint" reflect.Uint
  | t_uint8 => reflect.basic "uint8" reflect.Uint8
  | t_uint16 => reflect.basic "uint16" reflect.Uint16
  | t_uint32 => reflect.basic "uint32" reflect.Uint32
  | t_uint64 => reflect.basic "uint64" reflect.Uint64
  end.

Definition string_Type : rtype := reflect.basic "string" reflect.String.
Definition bool_Type : rtype := reflect.basic "bool" reflect.Bool.
Definition float32_Type : rtype := reflect.basic "float32" reflect.Float32.
Definition float64_Type : rtype := reflect.basic "float64" reflect.Float64.
(** [reflect.TypeOf(time.Time{})] *)
Definition time_Time_Type : rtype := reflect.basic "time.Time" reflect.Struct.

(** [reflect.TypeOf(v)]; [None] is the nil [reflect.Type]. *)
Definition TypeOf (v : Value) : option rtype :=
  match v with
  | VNil => None
  | VBool _ => Some bool_Type
  | VNum t _ => Some (numtype_Type t)
  | VFloat32 _ => Some float32_Type
  | VFloat64 _ => Some float64_Type
  | VString _ => Some string_Type
  | VStruct n _ => Some (reflect.basic n reflect.Struct)
  | VPtr n _ => Some (reflect.basic n reflect.Ptr)
  | VMap n _ => Some (reflect.basic n reflect.Map)
  | VNamed t _ => Some t
  | VOther t => Some t
  end.

(** [reflect.ValueOf(v).Kind()]; the zero [reflect.Value] is [VNil]. *)
Definition ValueKind (v : Value) : reflect.Kind :=
  match TypeOf v with
  | None => reflect.Invalid
  | Some t => reflect.type_Kind t
  end.

(** [v == nil] for an interface value: a nil pointer inside an interface
    is not the nil interface. *)
Definition is_nil (v : Value) : bool :=
  match v with
  | VNil => true
  | _ => false
  end.

(** ** Errors *)

Inductive fmt_arg :=
| AStr (s : string)
| AInt (n : Z)
| AFloat (f : spec_float)
| AType (t : option rtype).

Inductive error :=
| Errorf (format : string) (args : list fmt_arg)  (* fmt.Errorf(format, args...) *)
| DriverError (msg : string).                     (* an error of database/sql *)

(** An error names [s] when [s] is one of the strings it was formatted from. *)
Definition names (e : error) (s : string) : Prop :=
  match e with
  | Errorf _ args => AStr s ∈ args
  | DriverError _ => False
  end.

(** ** Ranging over a map *)

Definition range_of {V} (m : gmap string V) (it : list (string * V)) : Prop :=
  it ≡ₚ map_to_list m.

(** ** Package models *)

Module models.

Record ForeignKey := {
  fk_Model : string;
  fk_Field : string;
  OnDelete : string;
  OnUpdate : string;
}.

Record Field := {
  Name : string;
  Type_ : rtype;
  PrimaryKey : bool;
  AutoIncrement : bool;
  Unique : bool;
  NotNull : bool;
  Default : Value;            (* [VNil] when unset *)
  MaxLength : Z;
  ForeignKey_ : option ForeignKey;
}.

Record Model := {
  TableName : string;
  Fields : gmap string Field;
}.

(** The loop of [Validate] that looks for a primary key, with its [break]. *)
Fixpoint hasPrimaryKey (it : list (string * Field)) : bool :=
  match it with
  | [] => false
  | (_, field) :: rest => if PrimaryKey field then true else hasPrimaryKey rest
  end.

Definition Validate (it : list (string * Field)) (m : Model) : option error :=
  if decide (size (Fields m) = 0%nat) then
    Some (Errorf "model %s has no fields" [AStr (TableName m)])
  else if negb (hasPrimaryKey it) then
    Some (Errorf "model %s has no primary key" [AStr (TableName m)])
  else None.

(** Options mutate the field under construction through a pointer: they
    are functions from the field before to the field after. *)
Definition option_ := Field → Field.

(** [AddField]: the model is updated in place; the new model is returned. *)
Definition AddField (m : Model) (name : string) (fieldType : rtype)
  (options : list option_) : Model :=
  let field := {|
    Name := name; Type_ := fieldType; PrimaryKey := false; AutoIncrement := false;
    Unique := false; NotNull := false; Default := VNil; MaxLength := 0;
    ForeignKey_ := None;
  |} in
  let field := fold_left (λ f option, option f) options field in
  {| TableName := TableName m; Fields := <[name := field]> (Fields m) |}.

Definition WithPrimaryKey : option_ := λ f,
  {| Name := Name f; Type_ := Type_ f; PrimaryKey := true;
     AutoIncrement := AutoIncrement f; Unique := Unique f; NotNull := NotNull f;
     Default := Default f; MaxLength := MaxLength f; ForeignKey_ := ForeignKey_ f |}.

Definition WithAutoIncrement : option_ := λ f,
  {| Name := Name f; Type_ := Type_ f; PrimaryKey := PrimaryKey f;
     AutoIncrement := true; Unique := Unique f; NotNull := NotNull f;
     Default := Default f; MaxLength := MaxLength f; ForeignKey_ := ForeignKey_ f |}.

Definition WithUnique : option_ := λ f,
  {| Name := Name f; Type_ := Type_ f; PrimaryKey := PrimaryKey f;
     AutoIncrement := AutoIncrement f; Unique := true; NotNull := NotNull f;
     Default := Default f; MaxLength := MaxLength f; ForeignKey_ := ForeignKey_ f |}.

Definition WithNotNull : option_ := λ f,
  {| Name := Name f; Type_ := Type_ f; PrimaryKey := PrimaryKey f;
     AutoIncrement := AutoIncrement f; Unique := Unique f; NotNull := true;
     Default := Default f; MaxLength := MaxLength f; ForeignKey_ := ForeignKey_ f |}.

Definition WithDefault (value : Value) : option_ := λ f,
  {| Name := Name f; Type_ := Type_ f; PrimaryKey := PrimaryKey f;
     AutoIncrement := AutoIncrement f; Unique := Unique f; NotNull := NotNull f;
     Default := value; MaxLength := MaxLength f; ForeignKey_ := ForeignKey_ f |}.

Definition WithMaxLength (length : Z) : option_ := λ f,
  {| Name := Name f; Type_ := Type_ f; PrimaryKey := PrimaryKey f;
     AutoIncrement := AutoIncrement f; Unique := Unique f; NotNull := NotNull f;
     Default := Default f; MaxLength := length; ForeignKey_ := ForeignKey_ f |}.

Definition WithForeignKey (model field onDelete onUpdate : string) : option_ := λ f,
  {| Name := Name f; Type_ := Type_ f; PrimaryKey := PrimaryKey f;
     AutoIncrement := AutoIncrement f; Unique := Unique f; NotNull := NotNull f;
     Default := Default f; MaxLength := MaxLength f;
     ForeignKey_ := Some {| fk_Model := model; fk_Field := field;
                            OnDelete := onDelete; OnUpdate := onUpdate |} |}.

End models.


(** ** Package orm *)

Module orm.
Import models.

(** [sql.Result]: only [LastInsertId] is used. *)
Record Result := { LastInsertId : Z + error }.

Section ORM.

(** The database behind [*sql.DB] is a state of the driver; [Exec] runs
    one statement on it.  [fmt_v] is [fmt]'s rendering of [%v]. *)
Context {Store : Type}.
Variable driver_Exec : Store → string → list Value → Store * (Result + error).
Variable fmt_v : Value → string.

(** [*sql.DB]: the statements executed so far and the driver's state. *)
Record DB := {
  executed : list (string * list Value);
  store : Store;
}.

Definition Exec (db : DB) (query : string) (args : list Value) : DB * (Result + error) :=
  let '(st, r) := driver_Exec (store db) query args in
  ({| executed := executed db ++ [(query, args)]; store := st |}, r).

Record ORM := {
  db : DB;
  driver : string;
  models_ : gmap string Model;
  connected : bool;
}.

Definition set_db (o : ORM) (d : DB) : ORM :=
  {| db := d; driver := driver o; models_ := models_ o; connected := connected o |}.

Definition RegisterModel (it : list (string * Field)) (o : ORM) (model : Model)
  : ORM * option error :=
  match Validate it model with
  | Some err => (o, Some err)
  | None =>
      ({| db := db o; driver := driver o;
          models_ := <[TableName model := model]> (models_ o);
          connected := connected o |}, None)
  end.

Definition getSQLType (field : Field) (driver : string) : string :=
  match reflect.type_Kind (Type_ field) with
  | reflect.Bool => "BOOLEAN"
  | reflect.Int | reflect.Int8 | reflect.Int16 | reflect.Int32
  | reflect.Uint | reflect.Uint8 | reflect.Uint16 | reflect.Uint32 => "INTEGER"
  | reflect.Int64 | reflect.Uint64 => "BIGINT"
  | reflect.Float32 | reflect.Float64 => "REAL"
  | reflect.String =>
      if bool_decide (0 < MaxLength field) then "VARCHAR(" +:+ pretty (MaxLength field) +:+ ")"
      else "TEXT"
  | _ =>
      if bool_decide (Type_ field = time_Time_Type) then
        if bool_decide (driver = "mysql") then "DATETIME" else "TIMESTAMP"
      else "TEXT"
  end.

(** [strings.Join] *)
Fixpoint Join (elems : list string) (sep : string) : string :=
  match elems with
  | [] => ""
  | [e] => e
  | e :: rest => e +:+ sep +:+ Join rest sep
  end.

(** The column definition built for one field in the loop of [createTable]. *)
Definition column_def (drv : string) (name : string) (field : Field) : string :=
  let column := name +:+ " " +:+ getSQLType field drv in
  let column := if NotNull field then column +:+ " NOT NULL" else column in
  let column := if Unique field then column +:+ " UNIQUE" else column in
  let column :=
    if negb (is_nil (Default field)) then column +:+ " DEFAULT " +:+ fmt_v (Default field)
    else column in
  let column :=
    if AutoIncrement field && bool_decide (drv = "mysql") then column +:+ " AUTO_INCREMENT"
    else column in
  column.

(** The foreign-key clause built for one field in the loop of [createTable]. *)
Definition foreign_key_def (name : string) (fk : ForeignKey) : string :=
  let s := "FOREIGN KEY (" +:+ name +:+ ") REFERENCES " +:+ fk_Model fk
           +:+ "(" +:+ fk_Field fk +:+ ")" in
  let s := if bool_decide (OnDelete fk ≠ "") then s +:+ " ON DELETE " +:+ OnDelete fk else s in
  let s := if bool_decide (OnUpdate fk ≠ "") then s +:+ " ON UPDATE " +:+ OnUpdate fk else s in
  s.

(** The loop of [createTable]: the three slices it appends to. *)
Fixpoint createTable_loop (drv : string) (it : list (string * Field))
  (columns primaryKeys foreignKeys : list string) : list string * list string * list string :=
  match it with
  | [] => (columns, primaryKeys, foreignKeys)
  | (name, field) :: rest =>
      let primaryKeys := if PrimaryKey field then primaryKeys ++ [name] else primaryKeys in
      let columns := columns ++ [column_def drv name field] in
      let foreignKeys :=
        match ForeignKey_ field with
        | Some fk => foreignKeys ++ [foreign_key_def name fk]
        | None => foreignKeys
        end in
      createTable_loop drv rest columns primaryKeys foreignKeys
  end.

Definition createTable_query (drv : string) (it : list (string * Field)) (model : Model) : string :=
  let '(columns, primaryKeys, foreignKeys) := createTable_loop drv it [] [] [] in
  let columns :=
    if bool_decide (0 < length primaryKeys)%nat
    then columns ++ ["PRIMARY KEY (" +:+ Join primaryKeys ", " +:+ ")"]
    else columns in
  let columns := columns ++ foreignKeys in
  "CREATE TABLE IF NOT EXISTS " +:+ TableName model +:+ " (" +:+ Join columns ", " +:+ ")".

Definition createTable (it : list (string * Field)) (o : ORM) (model : Model)
  : ORM * option error :=
  let '(d, r) := Exec (db o) (createTable_query (driver o) it model) [] in
  (set_db o d, match r with inl _ => None | inr err => Some err end).

(** The placeholder of the [i]-th value. *)
Definition placeholder (drv : string) (i : Z) : string :=
  if bool_decide (drv = "postgres") then "$" +:+ pretty i else "?".

(** The loop of [Create] over the payload. *)
Fixpoint Create_loop (drv tableName : string) (fields : gmap string Field)
  (it : list (string * Value))
  (columns placeholders : list string) (values : list Value) (i : Z)
  : error + (list string * list string * list Value) :=
  match it with
  | [] => inr (columns, placeholders, values)
  | (column, value) :: rest =>
      match fields !! column with
      | None => inl (Errorf "field %s not found in model %s" [AStr column; AStr tableName])
      | Some _ =>
          Create_loop drv tableName fields rest
            (columns ++ [column]) (placeholders ++ [placeholder drv i]) (values ++ [value]) (i + 1)
      end
  end.

Definition Create (it : list (string * Value)) (o : ORM) (tableName : string)
  : ORM * (Z + error) :=
  match models_ o !! tableName with
  | None => (o, inr (Errorf "model %s not registered" [AStr tableName]))
  | Some model =>
      match Create_loop (driver o) tableName (Fields model) it [] [] [] 1 with
      | inl err => (o, inr err)
      | inr (columns, placeholders, values) =>
          let query := "INSERT INTO " +:+ tableName +:+ " (" +:+ Join columns ", "
                       +:+ ") VALUES (" +:+ Join placeholders ", " +:+ ")" in
          let '(d, r) := Exec (db o) query values in
          match r with
          | inr err => (set_db o d, inr err)
          | inl result => (set_db o d, LastInsertId result)
          end
      end
  end.

(** The loop of [Get], [Update] and [Delete] that picks the primary key. *)
Fixpoint primaryKey_loop (it : list (string * Field)) : string :=
  match it with
  | [] => ""
  | (name, field) :: rest => if PrimaryKey field then name else primaryKey_loop rest
  end.

(** The loop of [Update] over the payload. *)
Fixpoint Update_loop (drv tableName primaryKey : string) (fields : gmap string Field)
  (it : list (string * Value)) (setStatements : list string) (values : list Value) (i : Z)
  : error + (list string * list Value * Z) :=
  match it with
  | [] => inr (setStatements, values, i)
  | (column, value) :: rest =>
      match fields !! column with
      | None => inl (Errorf "field %s not found in model %s" [AStr column; AStr tableName])
      | Some _ =>
          if bool_decide (column = primaryKey) then
            Update_loop drv tableName primaryKey fields rest setStatements values i
          else
            Update_loop drv tableName primaryKey fields rest
              (setStatements ++ [column +:+ " = " +:+ placeholder drv i])
              (values ++ [value]) (i + 1)
      end
  end.

Definition Update (itf : list (string * Field)) (it : list (string * Value))
  (o : ORM) (tableName : string) (id : Value) : ORM * option error :=
  match models_ o !! tableName with
  | None => (o, Some (Errorf "model %s not registered" [AStr tableName]))
  | Some model =>
      let fields := Fields model in
      let primaryKey := primaryKey_loop itf in
      if bool_decide (primaryKey = "") then
        (o, Some (Errorf "model %s has no primary key" [AStr tableName]))
      else
        match Update_loop (driver o) tableName primaryKey fields it [] [] 1 with
        | inl err => (o, Some err)
        | inr (setStatements, values, i) =>
            let query := "UPDATE " +:+ tableName +:+ " SET " +:+ Join setStatements ", "
                         +:+ " WHERE " +:+ primaryKey +:+ " = " +:+ placeholder (driver o) i in
            let '(d, r) := Exec (db o) query (values ++ [id]) in
            (set_db o d, match r with inl _ => None | inr err => Some err end)
        end
  end.

Definition Delete (itf : list (string * Field)) (o : ORM) (tableName : string) (id : Value)
  : ORM * option error :=
  match models_ o !! tableName with
  | None => (o, Some (Errorf "model %s not registered" [AStr tableName]))
  | Some model =>
      let primaryKey := primaryKey_loop itf in
      if bool_decide (primaryKey = "") then
        (o, Some (Errorf "model %s has no primary key" [AStr tableName]))
      else
        let query := "DELETE FROM " +:+ tableName +:+ " WHERE " +:+ primaryKey
                     +:+ " = " +:+ (if bool_decide (driver o = "postgres") then "$1" else "?") in
        let '(d, r) := Exec (db o) query [id] in
        (set_db o d, match r with inl _ => None | inr err => Some err end)
  end.


End ORM.

End orm.

(** ** Package serializer *)

Module serializer.

(** [type Validator func(value interface{}) error] *)
Definition Validator := Value → option error.

Record Field := {
  Name : string;
  Type_ : rtype;
  Required : bool;
  ReadOnly : bool;
  WriteOnly : bool;
  Default : Value;              (* [VNil] when unset *)
  Validators : list Validator;
  SourceField : string;
  ErrorMessages : gmap string string;
}.

Record Serializer := {
  Model : models.Model;
  Fields : gmap string Field;
}.

(** *** float64 *)

Definition prec64 : Z := 53.
Definition emax64 : Z := 1024.

(** [float64(n)] for an integer [n]: rounded to nearest, ties to even. *)
Definition float64_of_Z (n : Z) : spec_float := binary_normalize prec64 emax64 n 0 false.

(** [float64(f)] for a [float32] [f]: exact. *)
Definition float64_of_float32 (f : spec_float) : spec_float :=
  match f with
  | S754_finite s m e => binary_round prec64 emax64 s m e
  | _ => f
  end.

(** *** Common validators *)

(** [len(str)]: the number of bytes. *)
Definition len (str : string) : Z := Z.of_nat (String.length str).

Definition MaxLengthValidator (maxLength : Z) : Validator := λ value,
  match value with
  | VString str =>
      if bool_decide (len str > maxLength) then
        Some (Errorf "string length exceeds maximum of %d" [AInt maxLength])
      else None
  | _ => Some (Errorf "value is not a string" [])
  end.

Definition MinLengthValidator (minLength : Z) : Validator := λ value,
  match value with
  | VString str =>
      if bool_decide (len str < minLength) then
        Some (Errorf "string length is less than minimum of %d" [AInt minLength])
      else None
  | _ => Some (Errorf "value is not a string" [])
  end.

Definition RegexValidator (pattern : string) : Validator := λ value,
  match value with
  | VString str => None
  | _ => Some (Errorf "value is not a string" [])
  end.

(** [strings.HasPrefix] and [strings.Contains] *)
Fixpoint HasPrefix (s prefix : string) : bool :=
  match prefix, s with
  | EmptyString, _ => true
  | String _ _, EmptyString => false
  | String a p, String b r => bool_decide (a = b) && HasPrefix r p
  end.

Fixpoint Contains (s substr : string) : bool :=
  HasPrefix s substr ||
  match s with
  | EmptyString => false
  | String _ r => Contains r substr
  end.

Definition EmailValidator : Validator := λ value,
  match value with
  | VString str =>
      if negb (Contains str "@") then Some (Errorf "invalid email address" [])
      else None
  | _ => Some (Errorf "value is not a string" [])
  end.

(** The type switch of [RangeValidator]. *)
Definition num_of (value : Value) : option spec_float :=
  match value with
  | VNum _ v => Some (float64_of_Z v)
  | VFloat32 v => Some (float64_of_float32 v)
  | VFloat64 v => Some v
  | _ => None
  end.

Definition RangeValidator (min max : spec_float) : Validator := λ value,
  match num_of value with
  | None => Some (Errorf "value is not a number" [])
  | Some num =>
      if SFltb num min || SFltb max num then
        Some (Errorf "number must be between %f and %f" [AFloat min; AFloat max])
      else None
  end.

(** *** Construction *)

(** The serializer field that the loop of [New] builds for one model field. *)
Definition New_field (name : string) (modelField : models.Field) : Field := {|
  Name := name;
  Type_ := models.Type_ modelField;
  Required := models.NotNull modelField && is_nil (models.Default modelField);
  ReadOnly := false;
  WriteOnly := false;
  Default := VNil;
  Validators :=
    if bool_decide (0 < models.MaxLength modelField)
       && bool_decide (reflect.type_Kind (models.Type_ modelField) = reflect.String)
    then [MaxLengthValidator (models.MaxLength modelField)]
    else [];
  SourceField := name;
  ErrorMessages := ∅;
|}.

(** The loop of [New] over the model's fields. *)
Fixpoint New_loop (it : list (string * models.Field)) (fields : gmap string Field)
  : gmap string Field :=
  match it with
  | [] => fields
  | (name, modelField) :: rest =>
      New_loop rest (<[name := New_field name modelField]> fields)
  end.

Definition New (it : list (string * models.Field)) (model : models.Model) : Serializer :=
  {| Model := model; Fields := New_loop it ∅ |}.

(** Options mutate the field under construction through a pointer: they
    are functions from the field before to the field after. *)
Definition option_ := Field → Field.

Definition AddField (s : Serializer) (name : string) (fieldType : rtype)
  (options : list option_) : Serializer :=
  let field := {|
    Name := name; Type_ := fieldType; Required := false; ReadOnly := false;
    WriteOnly := false; Default := VNil; Validators := [];
    SourceField := name; ErrorMessages := ∅;
  |} in
  let field := fold_left (λ f option, option f) options field in
  {| Model := Model s; Fields := <[name := field]> (Fields s) |}.

Definition WithRequired : option_ := λ f,
  {| Name := Name f; Type_ := Type_ f; Required := true; ReadOnly := ReadOnly f;
     WriteOnly := WriteOnly f; Default := Default f; Validators := Validators f;
     SourceField := SourceField f; ErrorMessages := ErrorMessages f |}.

Definition WithReadOnly : option_ := λ f,
  {| Name := Name f; Type_ := Type_ f; Required := Required f; ReadOnly := true;
     WriteOnly := WriteOnly f; Default := Default f; Validators := Validators f;
     SourceField := SourceField f; ErrorMessages := ErrorMessages f |}.

Definition WithWriteOnly : option_ := λ f,
  {| Name := Name f; Type_ := Type_ f; Required := Required f; ReadOnly := ReadOnly f;
     WriteOnly := true; Default := Default f; Validators := Validators f;
     SourceField := SourceField f; ErrorMessages := ErrorMessages f |}.

Definition WithDefault (value : Value) : option_ := λ f,
  {| Name := Name f; Type_ := Type_ f; Required := Required f; ReadOnly := ReadOnly f;
     WriteOnly := WriteOnly f; Default := value; Validators := Validators f;
     SourceField := SourceField f; ErrorMessages := ErrorMessages f |}.

Definition WithValidator (validator : Validator) : option_ := λ f,
  {| Name := Name f; Type_ := Type_ f; Required := Required f; ReadOnly := ReadOnly f;
     WriteOnly := WriteOnly f; Default := Default f;
     Validators := Validators f ++ [validator];
     SourceField := SourceField f; ErrorMessages := ErrorMessages f |}.

Definition WithSourceField (sourceField : string) : option_ := λ f,
  {| Name := Name f; Type_ := Type_ f; Required := Required f; ReadOnly := ReadOnly f;
     WriteOnly := WriteOnly f; Default := Default f; Validators := Validators f;
     SourceField := sourceField; ErrorMessages := ErrorMessages f |}.

Definition WithErrorMessages (messages : gmap string string) : option_ := λ f,
  {| Name := Name f; Type_ := Type_ f; Required := Required f; ReadOnly := ReadOnly f;
     WriteOnly := WriteOnly f; Default := Default f; Validators := Validators f;
     SourceField := SourceField f; ErrorMessages := messages |}.

(** *** Serialize *)

(** [strings.Split(s, sep)] for a one-byte separator. *)
Fixpoint Split (s : string) (sep : Ascii.ascii) : list string :=
  match s with
  | EmptyString => [""]
  | String c r =>
      if bool_decide (c = sep) then "" :: Split r sep
      else match Split r sep with
           | p :: ps => String c p :: ps
           | [] => [String c ""]
           end
  end.

(** [v.Elem()] of a pointer: the zero Value when it is nil. *)
Definition Elem (val : Value) : Value :=
  match val with
  | VPtr _ (Some target) => target
  | _ => VNil
  end.

(** [v.String()] of a [reflect.Value]: the string for the String kind,
    a description of the type otherwise. *)
Definition Value_String (v : Value) : string :=
  match v with
  | VNil => "<invalid Value>"
  | VString s => s
  | VNamed t (VString s) =>
      if bool_decide (reflect.type_Kind t = reflect.String) then s
      else "<" +:+ reflect.type_String t +:+ " Value>"
  | _ => "<" +:+ from_option reflect.type_String "" (TypeOf v) +:+ " Value>"
  end.

(** The fields of a struct value, by index. *)
Definition struct_fields (val : Value) : list (StructField * Value) :=
  match val with
  | VStruct _ fields => fields
  | _ => []
  end.

(** The entries of a map value in the order of [MapKeys]; every key
    comes with its [MapIndex]. *)
Definition map_entries (val : Value) : list (Value * Value) :=
  match val with
  | VMap _ entries => entries
  | _ => []
  end.

(** The loop of [Serialize] over the fields of a struct. *)
Fixpoint Serialize_struct (s : Serializer) (fields : list (StructField * Value))
  (result : gmap string Value) : gmap string Value :=
  match fields with
  | [] => result
  | (field, v) :: rest =>
      if bool_decide (sf_PkgPath field ≠ "") then Serialize_struct s rest result
      else
        let tag := sf_json field in
        let name :=
          if bool_decide (tag ≠ "") then
            let parts0 := hd "" (Split tag ","%char) in
            if bool_decide (parts0 ≠ "-") then Some parts0 else None
          else Some (sf_Name field) in
        match name with
        | None => Serialize_struct s rest result
        | Some name =>
            match Fields s !! name with
            | Some serializerField =>
                if WriteOnly serializerField then Serialize_struct s rest result
                else Serialize_struct s rest (<[name := v]> result)
            | None => Serialize_struct s rest result
            end
        end
  end.

(** The loop of [Serialize] over the keys of a map. *)
Fixpoint Serialize_map (s : Serializer) (entries : list (Value * Value))
  (result : gmap string Value) : gmap string Value :=
  match entries with
  | [] => result
  | (key, v) :: rest =>
      let name := Value_String key in
      match Fields s !! name with
      | Some serializerField =>
          if WriteOnly serializerField then Serialize_map s rest result
          else Serialize_map s rest (<[name := v]> result)
      | None => Serialize_map s rest result
      end
  end.

Definition Serialize (s : Serializer) (data : Value) : gmap string Value + error :=
  let val := data in
  let val := if bool_decide (ValueKind val = reflect.Ptr) then Elem val else val in
  if bool_decide (ValueKind val ≠ reflect.Struct) && bool_decide (ValueKind val ≠ reflect.Map)
  then inr (Errorf "data must be a struct, a map, or a pointer to a struct" [])
  else
    let result : gmap string Value := ∅ in
    if bool_decide (ValueKind val = reflect.Struct) then
      inl (Serialize_struct s (struct_fields val) result)
    else if bool_decide (ValueKind val = reflect.Map) then
      inl (Serialize_map s (map_entries val) result)
    else inl result.

(** The shapes of input the specification speaks of: a struct or a map,
    directly or behind one pointer that is not nil. *)
Definition struct_like (data : Value) : Prop :=
  ValueKind data = reflect.Struct ∨
  ∃ tname target, data = VPtr tname (Some target) ∧ ValueKind target = reflect.Struct.

Definition map_like (data : Value) : Prop :=
  ValueKind data = reflect.Map ∨
  ∃ tname target, data = VPtr tname (Some target) ∧ ValueKind target = reflect.Map.

(** *** Deserialize and Validate *)

(** The loop of [validateField] over the validators. *)
Fixpoint run_validators (validators : list Validator) (value : Value) : option error :=
  match validators with
  | [] => None
  | validator :: rest =>
      match validator value with
      | Some err => Some err
      | None => run_validators rest value
      end
  end.

Definition validateField (s : Serializer) (name : string) (value : Value) : option error :=
  match Fields s !! name with
  | None => Some (Errorf "field %s not found" [AStr name])
  | Some field =>
      let valueType := TypeOf value in
      if bool_decide (valueType ≠ Some (Type_ field)) && negb (is_nil value) then
        if bool_decide (Type_ field = time_Time_Type) then
          match value with
          | VString _ => run_validators (Validators field) value
          | _ =>
              Some (Errorf "field %s has invalid type: expected time.Time or string, got %v"
                      [AStr name; AType valueType])
          end
        else
          Some (Errorf "field %s has invalid type: expected %v, got %v"
                  [AStr name; AType (Some (Type_ field)); AType valueType])
      else run_validators (Validators field) value
  end.

(** First loop of [Deserialize]: apply defaults. *)
Fixpoint Deserialize_defaults (data : gmap string Value) (it : list (string * Field))
  (result : gmap string Value) : gmap string Value :=
  match it with
  | [] => result
  | (name, field) :: rest =>
      if ReadOnly field then Deserialize_defaults data rest result
      else if negb (is_nil (Default field)) then
        match data !! name with
        | None => Deserialize_defaults data rest (<[SourceField field := Default field]> result)
        | Some _ => Deserialize_defaults data rest result
        end
      else Deserialize_defaults data rest result
  end.

(** Second loop of [Deserialize]: copy the payload, validating. *)
Fixpoint Deserialize_copy (s : Serializer) (it : list (string * Value))
  (result : gmap string Value) : error + gmap string Value :=
  match it with
  | [] => inr result
  | (name, value) :: rest =>
      match Fields s !! name with
      | None => Deserialize_copy s rest result
      | Some field =>
          if ReadOnly field then Deserialize_copy s rest result
          else
            match validateField s name value with
            | Some err => inl err
            | None => Deserialize_copy s rest (<[SourceField field := value]> result)
            end
      end
  end.

(** Third loop of [Deserialize]: check required fields. *)
Fixpoint Deserialize_required (it : list (string * Field)) (result : gmap string Value)
  : option error :=
  match it with
  | [] => None
  | (name, field) :: rest =>
      if Required field then
        match result !! SourceField field with
        | None => Some (Errorf "field %s is required" [AStr name])
        | Some _ => Deserialize_required rest result
        end
      else Deserialize_required rest result
  end.

(** [Deserialize]; [it1], [it2] and [it3] are the orders of its three loops. *)
Definition Deserialize (it1 : list (string * Field)) (it2 : list (string * Value))
  (it3 : list (string * Field)) (s : Serializer) (data : gmap string Value)
  : gmap string Value + error :=
  let result := Deserialize_defaults data it1 ∅ in
  match Deserialize_copy s it2 result with
  | inl err => inr err
  | inr result =>
      match Deserialize_required it3 result with
      | Some err => inr err
      | None => inl result
      end
  end.

(** First loop of [Validate]: required fields, looked up in the payload. *)
Fixpoint Validate_required (data : gmap string Value) (it : list (string * Field))
  : option error :=
  match it with
  | [] => None
  | (name, field) :: rest =>
      if Required field then
        match data !! name with
        | None => Some (Errorf "field %s is required" [AStr name])
        | Some _ => Validate_required data rest
        end
      else Validate_required data rest
  end.

(** Second loop of [Validate]: every supplied key. *)
Fixpoint Validate_fields (s : Serializer) (it : list (string * Value)) : option error :=
  match it with
  | [] => None
  | (name, value) :: rest =>
      match validateField s name value with
      | Some err => Some err
      | None => Validate_fields s rest
      end
  end.

Definition Validate (it1 : list (string * Field)) (it2 : list (string * Value))
  (s : Serializer) (data : gmap string Value) : option error :=
  match Validate_required data it1 with
  | Some err => Some err
  | None => Validate_fields s it2
  end.

End serializer.

(** ** Package router (patterns of routes) *)

Module router.

(** [strings.HasSuffix] *)
Fixpoint HasSuffix (s suffix : string) : bool :=
  bool_decide (s = suffix) ||
  match s with
  | EmptyString => false
  | String _ r => HasSuffix r suffix
  end.

(** [s[1:]] of a string that is not empty. *)
Definition from_1 (s : string) : string :=
  match s with
  | EmptyString => ""
  | String _ r => r
  end.

(** The loop of [extractPathParams] over the parts of the pattern. *)
Fixpoint extractPathParams_loop (parts : list string) (params : list string) : list string :=
  match parts with
  | [] => params
  | part :: rest =>
      if serializer.HasPrefix part ":" then extractPathParams_loop rest (params ++ [from_1 part])
      else extractPathParams_loop rest params
  end.

Definition extractPathParams (pattern : string) : list string :=
  extractPathParams_loop (serializer.Split pattern "/"%char) [].

Definition patternToRegex (pattern : string) : string :=
  let parts := serializer.Split pattern "/"%char in
  let parts := map (λ part, if serializer.HasPrefix part ":" then "([^/]+)" else part) parts in
  "^" +:+ orm.Join parts "/" +:+ "$".

(** The computation of [fullPattern] in [Group.Handle], from the group's
    prefix and the route's pattern: the pattern under which the route is
    registered. *)
Definition Group_fullPattern (prefix pattern : string) : string :=
  let fullPattern := prefix in
  let fullPattern :=
    if negb (HasSuffix fullPattern "/") then fullPattern +:+ "/" else fullPattern in
  let pattern := if serializer.HasPrefix pattern "/" then from_1 pattern else pattern in
  fullPattern +:+ pattern.

End router.

(** ** Package api (the default serializer and the identifier of a URL) *)

Module api.

(** The loop of [DefaultSerializer.Serialize] over the fields of a struct. *)
Fixpoint Serialize_struct (fields : list (StructField * Value))
  (result : gmap string Value) : gmap string Value :=
  match fields with
  | [] => result
  | (field, v) :: rest =>
      if bool_decide (sf_PkgPath field ≠ "") then Serialize_struct rest result
      else
        let tag := sf_json field in
        let name :=
          if bool_decide (tag ≠ "") then
            let parts0 := hd "" (serializer.Split tag ","%char) in
            if bool_decide (parts0 ≠ "-") then Some parts0 else None
          else Some (sf_Name field) in
        match name with
        | None => Serialize_struct rest result
        | Some name => Serialize_struct rest (<[name := v]> result)
        end
  end.

(** [DefaultSerializer.Serialize] *)
Definition Serialize (data : Value) : gmap string Value + error :=
  let val := data in
  let val := if bool_decide (ValueKind val = reflect.Ptr) then serializer.Elem val else val in
  if bool_decide (ValueKind val ≠ reflect.Struct)
  then inr (Errorf "data must be a struct or a pointer to a struct" [])
  else inl (Serialize_struct (serializer.struct_fields val) ∅).

(** [DefaultSerializer.Deserialize] *)
Definition Deserialize (data : gmap string Value) : gmap string Value + error :=
  inl data.

(** The loop of [DefaultSerializer.Validate] over the fields of the model. *)
Fixpoint Validate_loop (data : gmap string Value) (it : list (string * models.Field))
  : option error :=
  match it with
  | [] => None
  | (name, field) :: rest =>
      match data !! name with
      | None =>
          if models.NotNull field && is_nil (models.Default field) then
            Some (Errorf "field %s is required" [AStr name])
          else Validate_loop data rest
      | Some value =>
          let valueType := TypeOf value in
          if bool_decide (valueType ≠ Some (models.Type_ field)) && negb (is_nil value) then
            Some (Errorf "field %s has invalid type: expected %v, got %v"
                    [AStr name; AType (Some (models.Type_ field)); AType valueType])
          else if bool_decide (reflect.type_Kind (models.Type_ field) = reflect.String)
                  && bool_decide (0 < models.MaxLength field) then
            match value with
            | VString strValue =>
                if bool_decide (serializer.len strValue > models.MaxLength field) then
                  Some (Errorf "field %s exceeds maximum length of %d"
                          [AStr name; AInt (models.MaxLength field)])
                else Validate_loop data rest
            | _ => Validate_loop data rest
            end
          else Validate_loop data rest
      end
  end.

(** [DefaultSerializer.Validate]; [it] is the order of its loop. *)
Definition Validate (it : list (string * models.Field)) (model : models.Model)
  (data : gmap string Value) : option error :=
  Validate_loop data it.

(** [extractIDFromURL] *)
Definition extractIDFromURL (path : string) : string :=
  let parts := serializer.Split path "/"%char in
  if bool_decide (length parts = 0%nat) then ""
  else default "" (last parts).

End api.

(** ** Example declarations

    The [users] table of the examples: an auto-increment integer key and
    two bounded, unique, not-null strings. *)

Module example.

Definition int_Type : rtype := numtype_Type t_int.

Definition id_field : models.Field := {|
  models.Name := "id"; models.Type_ := int_Type;
  models.PrimaryKey := true; models.AutoIncrement := true;
  models.Unique := false; models.NotNull := false; models.Default := VNil;
  models.MaxLength := 0; models.ForeignKey_ := None |}.

Definition username_field : models.Field := {|
  models.Name := "username"; models.Type_ := string_Type;
  models.PrimaryKey := false; models.AutoIncrement := false;
  models.Unique := true; models.NotNull := true; models.Default := VNil;
  models.MaxLength := 50; models.ForeignKey_ := None |}.

Definition email_field : models.Field := {|
  models.Name := "email"; models.Type_ := string_Type;
  models.PrimaryKey := false; models.AutoIncrement := false;
  models.Unique := true; models.NotNull := true; models.Default := VNil;
  models.MaxLength := 100; models.ForeignKey_ := None |}.

Definition users_fields : list (string * models.Field) :=
  [("id", id_field); ("username", username_field); ("email", email_field)].

Definition users : models.Model := {|
  models.TableName := "users";
  models.Fields := list_to_map users_fields |}.

(** The bounds of the price validator of the examples: [0.01], the
    float64 nearest to it, and [1000000.0]. *)
Definition price_min : spec_float := S754_finite false 5764607523034235 (-59).
Definition price_max : spec_float := serializer.float64_of_Z 1000000.

(** The serializer derived from [users], and its fields in one order. *)
Definition users_serializer : serializer.Serializer := serializer.New users_fields users.

Definition users_serializer_fields : list (string * serializer.Field) :=
  [("id", serializer.New_field "id" id_field);
   ("username", serializer.New_field "username" username_field);
   ("email", serializer.New_field "email" email_field)].

(** A serializer with two fields stored under one source name: [a],
    required, and [b], renamed to [a]. *)
Definition aliased : serializer.Serializer :=
  serializer.AddField
    (serializer.AddField {| serializer.Model := users; serializer.Fields := ∅ |}
       "a" string_Type [serializer.WithRequired])
    "b" string_Type [serializer.WithSourceField "a"].

Definition aliased_fields : list (string * serializer.Field) :=
  [("a", serializer.WithRequired
           {| serializer.Name := "a"; serializer.Type_ := string_Type;
              serializer.Required := false; serializer.ReadOnly := false;
              serializer.WriteOnly := false; serializer.Default := VNil;
              serializer.Validators := []; serializer.SourceField := "a";
              serializer.ErrorMessages := ∅ |});
   ("b", serializer.WithSourceField "a"
           {| serializer.Name := "b"; serializer.Type_ := string_Type;
              serializer.Required := false; serializer.ReadOnly := false;
              serializer.WriteOnly := false; serializer.Default := VNil;
              serializer.Validators := []; serializer.SourceField := "b";
              serializer.ErrorMessages := ∅ |})].

(** A database that accepts every statement and numbers the rows. *)
Definition counting_Exec (st : Z) (query : string) (args : list Value)
  : Z * (orm.Result + error) :=
  (st + 1, inl {| orm.LastInsertId := inl (st + 1) |}).

Definition empty_db : @orm.DB Z := {| orm.executed := []; orm.store := 0 |}.

Definition fresh_orm : @orm.ORM Z := {|
  orm.db := empty_db; orm.driver := "sqlite3"; orm.models_ := ∅; orm.connected := true |}.

Definition users_orm : @orm.ORM Z := {|
  orm.db := empty_db; orm.driver := "sqlite3";
  orm.models_ := {[ "users" := users ]}; orm.connected := true |}.

(** A payload for [users] with both strings, in one order. *)
Definition valid_payload : list (string * Value) :=
  [("username", VString "john"); ("email", VString "john@x.com")].

Definition valid_data : gmap string Value := list_to_map valid_payload.

(** A model whose only field, a primary key, is stored under the empty name. *)
Definition unnamed_key : models.Model := {|
  models.TableName := "settings";
  models.Fields := {[ "" := id_field ]} |}.

(** The serializer of [users] with a read-only [id]. *)
Definition readonly_id : serializer.Serializer :=
  serializer.AddField users_serializer "id" int_Type [serializer.WithReadOnly].

(** The string [pässwor]: seven characters, the second of which takes
    the two bytes C3 A4 in UTF-8. *)
Definition seven_characters : string :=
  String "p" (String (Ascii.ascii_of_nat 195) (String (Ascii.ascii_of_nat 164) "sswor")).

End example.

(** ** Vocabulary of the properties *)

(** What [Serialize] maintains on its result: every key is a field of the
    serializer that is not write-only. *)
Definition visible_keys (s : serializer.Serializer) (result : gmap string Value) : Prop :=
  ∀ name, is_Some (result !! name) →
    ∃ field, serializer.Fields s !! name = Some field ∧ serializer.WriteOnly field = false.

(** A payload entry that the copy loop of [Deserialize] checks and
    copies: its key is a field of the serializer that is not read-only. *)
Definition copied (s : serializer.Serializer) (name : string) (field : serializer.Field)
  : Prop :=
  serializer.Fields s !! name = Some field ∧ serializer.ReadOnly field = false.

(** A field whose default the first loop of [Deserialize] writes. *)
Definition defaulted (data : gmap string Value) (name : string) (field : serializer.Field)
  : Prop :=
  serializer.ReadOnly field = false ∧ serializer.Default field ≠ VNil ∧ data !! name = None.

(** No other field of the serializer is stored under the source name of [field]. *)
Definition sole_source (s : serializer.Serializer) (name : string)
  (field : serializer.Field) : Prop :=
  ∀ name' field', serializer.Fields s !! name' = Some field' →
    serializer.SourceField field' = serializer.SourceField field → name' = name.

(** ** Vocabulary of the further properties *)

(** The names of the primary-key fields, in the order of a loop. *)
Definition pk_names (it : list (string * models.Field)) : list string :=
  omap (λ nf, if models.PrimaryKey nf.2 then Some nf.1 else None) it.

(** The foreign-key clauses of the fields that carry one, in the order of a loop. *)
Definition fk_clauses (it : list (string * models.Field)) : list string :=
  omap (λ nf, orm.foreign_key_def nf.1 <$> models.ForeignKey_ nf.2) it.

(** The field with its auto-increment flag cleared. *)
Definition without_AutoIncrement (f : models.Field) : models.Field :=
  {| models.Name := models.Name f; models.Type_ := models.Type_ f;
     models.PrimaryKey := models.PrimaryKey f; models.AutoIncrement := false;
     models.Unique := models.Unique f; models.NotNull := models.NotNull f;
     models.Default := models.Default f; models.MaxLength := models.MaxLength f;
     models.ForeignKey_ := models.ForeignKey_ f |}.

(** The options that package [models] provides. *)
Inductive models_option : models.option_ → Prop :=
| mo_PrimaryKey : models_option models.WithPrimaryKey
| mo_AutoIncrement : models_option models.WithAutoIncrement
| mo_Unique : models_option models.WithUnique
| mo_NotNull : models_option models.WithNotNull
| mo_Default value : models_option (models.WithDefault value)
| mo_MaxLength length : models_option (models.WithMaxLength length)
| mo_ForeignKey model field onDelete onUpdate :
    models_option (models.WithForeignKey model field onDelete onUpdate).

(** The options that package [serializer] provides, as calls. *)
Inductive serializer_call :=
| CallRequired
| CallReadOnly
| CallWriteOnly
| CallDefault (value : Value)
| CallValidator (validator : serializer.Validator)
| CallSourceField (sourceField : string)
| CallErrorMessages (messages : gmap string string).

Definition call_option (c : serializer_call) : serializer.option_ :=
  match c with
  | CallRequired => serializer.WithRequired
  | CallReadOnly => serializer.WithReadOnly
  | CallWriteOnly => serializer.WithWriteOnly
  | CallDefault value => serializer.WithDefault value
  | CallValidator validator => serializer.WithValidator validator
  | CallSourceField sourceField => serializer.WithSourceField sourceField
  | CallErrorMessages messages => serializer.WithErrorMessages messages
  end.

(** The validators passed by [WithValidator], in the order of the calls. *)
Definition call_validators (calls : list serializer_call) : list serializer.Validator :=
  omap (λ c, match c with CallValidator v => Some v | _ => None end) calls.

(** The argument of the last call that satisfies [pick], or [d]. *)
Definition last_call {A} (pick : serializer_call → option A) (d : A)
  (calls : list serializer_call) : A :=
  default d (last (omap pick calls)).

(** A key that [Serialize] lets through: a field that is not write-only. *)
Definition is_visible (s : serializer.Serializer) (name : string) : bool :=
  match serializer.Fields s !! name with
  | Some field => negb (serializer.WriteOnly field)
  | None => false
  end.

(** A [map[string]interface{}] as a value, its keys in the order of [MapKeys]. *)
Definition map_value (it : list (string * Value)) : Value :=
  VMap "map[string]interface {}" (map (λ kv, (VString kv.1, kv.2)) it).

(** [s] has no byte [sep]. *)
Definition free_of (sep : Ascii.ascii) (s : string) : Prop :=
  ∀ before after, s ≠ before +:+ String sep after.

(** The path parameters that the segments of a pattern name. *)
Definition segment_params (parts : list string) : list string :=
  omap (λ part, if serializer.HasPrefix part ":" then Some (router.from_1 part) else None)
       parts.

(** The width in bits of the integer kinds, where [int], [uint] and
    [uintptr] have the [word] bits of the platform (32 or 64). *)
Definition integer_bits (word : Z) (k : reflect.Kind) : option Z :=
  match k with
  | reflect.Int | reflect.Uint | reflect.Uintptr => Some word
  | reflect.Int8 | reflect.Uint8 => Some 8
  | reflect.Int16 | reflect.Uint16 => Some 16
  | reflect.Int32 | reflect.Uint32 => Some 32
  | reflect.Int64 | reflect.Uint64 => Some 64
  | _ => None
  end.

(** A continuation byte of UTF-8: its two high bits are 1 and 0. *)
Definition is_continuation (c : Ascii.ascii) : bool :=
  match c with
  | Ascii.Ascii _ _ _ _ _ _ b6 b7 => b7 && negb b6
  end.

(** The number of characters of a UTF-8 string, as
    [utf8.RuneCountInString] counts them on well-formed text: the bytes
    that are not continuation bytes. *)
Fixpoint rune_count (s : string) : nat :=
  match s with
  | EmptyString => 0
  | String c r => (if is_continuation c then 0 else 1) + rune_count r
  end.

(** * Properties *)

(** ** Ranging over a map *)

Lemma range_of_lookup {V} (m : gmap string V) it k v :
  range_of m it → (k, v) ∈ it ↔ m !! k = Some v.
Proof.
  intros H. unfold range_of in H. rewrite H. apply elem_of_map_to_list.
Qed.

Lemma range_of_NoDup {V} (m : gmap string V) it :
  range_of m it → NoDup it.*1.
Proof.
  intros H. unfold range_of in H. rewrite H. apply NoDup_fst_map_to_list.
Qed.


(** ** Registration of models *)

Lemma hasPrimaryKey_true it :
  models.hasPrimaryKey it = true ↔
  ∃ n f, (n, f) ∈ it ∧ models.PrimaryKey f = true.
Proof.
  induction it as [|[n f] it IH]; simpl.
  - split; [done|]. intros (n & f & Hin & _). by apply elem_of_nil in Hin.
  - destruct (models.PrimaryKey f) eqn:Hpk.
    + split; [|done]. intros _. exists n, f. split; [left|done].
    + rewrite IH. split.
      * intros (n' & f' & Hin & Hf). exists n', f'. split; [by right|done].
      * intros (n' & f' & Hin & Hf). apply elem_of_cons in Hin as [Heq|Hin].
        -- congruence.
        -- by exists n', f'.
Qed.

Section Registration.
Context {Store : Type}.
Implicit Types (o : @orm.ORM Store) (m : models.Model).

(** C1. [RegisterModel] succeeds exactly when the model has at least one
    field and at least one primary-key field.  On success the registry
    maps the model's table name to the model, whatever it held for that
    name before, and nothing else changes; on failure the error names
    the table and the ORM, registry included, is unchanged.  This holds
    for every order in which [Validate] ranges over the fields. *)
Theorem C1_RegisterModel o m it :
  range_of (models.Fields m) it →
  let o' := (orm.RegisterModel it o m).1 in
  let r := (orm.RegisterModel it o m).2 in
  (r = None ↔
     (1 ≤ size (models.Fields m))%nat ∧
     ∃ n f, models.Fields m !! n = Some f ∧ models.PrimaryKey f = true) ∧
  (r = None →
     orm.models_ o' = <[models.TableName m := m]> (orm.models_ o) ∧
     orm.models_ o' !! models.TableName m = Some m ∧
     orm.db o' = orm.db o ∧ orm.driver o' = orm.driver o ∧
     orm.connected o' = orm.connected o) ∧
  (∀ err, r = Some err → names err (models.TableName m) ∧ o' = o).
Proof.
  intros Hit. unfold orm.RegisterModel, models.Validate. simpl.
  assert (Hpk : models.hasPrimaryKey it = true ↔
                ∃ n f, models.Fields m !! n = Some f ∧ models.PrimaryKey f = true).
  { rewrite hasPrimaryKey_true. split; intros (n & f & H1 & H2); exists n, f; split; try done.
    - by apply (range_of_lookup _ it).
    - by apply (range_of_lookup (models.Fields m)). }
  destruct (decide (size (models.Fields m) = 0%nat)) as [Hz|Hnz]; simpl.
  - split; [|split].
    + split; [done|]. intros [Hsz _]. lia.
    + done.
    + intros err [= <-]. split; [|done]. simpl. by left.
  - destruct (models.hasPrimaryKey it) eqn:Hh; simpl.
    + split; [|split].
      * split; [|done]. intros _. split; [lia|]. by apply Hpk.
      * intros _. split; [done|]. split; [by rewrite lookup_insert_eq|done].
      * done.
    + split; [|split].
      * split; [done|]. intros [_ Hex]. apply Hpk in Hex. done.
      * done.
      * intros err [= <-]. split; [|done]. simpl. by left.
Qed.

End Registration.

Lemma users_fields_range : range_of (models.Fields example.users) example.users_fields.
Proof.
  unfold range_of. symmetry. apply map_to_list_to_map.
  apply (bool_decide_unpack _). vm_compute. reflexivity.
Qed.

Lemma C1_RegisterModel_witness :
  range_of (models.Fields example.users) example.users_fields ∧
  (orm.RegisterModel example.users_fields example.fresh_orm example.users).2 = None.
Proof.
  split; [exact users_fields_range|].
  apply (C1_RegisterModel example.fresh_orm example.users example.users_fields
           users_fields_range).
  split.
  - vm_compute. lia.
  - exists "id", example.id_field. split; reflexivity.
Defined.

(** ** Validators *)

(** C4, as the code has it: [RegexValidator] succeeds on every string,
    whatever the pattern, and fails on every value that is not a
    string. *)
Theorem C4_RegexValidator_strings (pattern : string) (value : Value) :
  (∀ str, serializer.RegexValidator pattern (VString str) = None) ∧
  (serializer.RegexValidator pattern value = None ↔ ∃ str, value = VString str) ∧
  (serializer.RegexValidator pattern value = Some (Errorf "value is not a string" [])
   ↔ ∀ str, value ≠ VString str).
Proof.
  split; [done|]. split.
  - destruct value; simpl; split; try done; try (by intros [? ?]). intros _. by eexists.
  - destruct value; simpl; split; try done. intros H. by destruct (H s).
Qed.

(** C4 as stated fails: the validator rejects a value that is not a string. *)
Lemma C4_RegexValidator_not_noop :
  ¬ (∀ pattern value, serializer.RegexValidator pattern value = None).
Proof. intros H. specialize (H "" (VNum t_int 5)). discriminate H. Qed.

(** The float64 constant [0.01] is the correctly rounded quotient of 1 by 100. *)
Lemma price_min_is_0_01 :
  example.price_min =
  SFdiv serializer.prec64 serializer.emax64
    (serializer.float64_of_Z 1) (serializer.float64_of_Z 100).
Proof. vm_compute. reflexivity. Qed.

Lemma MinLengthValidator_spec (minLength : Z) (str : string) :
  serializer.MinLengthValidator minLength (VString str) = None ↔
  (minLength ≤ serializer.len str)%Z.
Proof.
  unfold serializer.MinLengthValidator. case_bool_decide; split; try done; lia.
Qed.

Lemma rune_count_le_length (str : string) : (rune_count str ≤ String.length str)%nat.
Proof.
  induction str as [|c str IH]; [done|]. cbn [rune_count String.length].
  destruct (is_continuation c); simpl; lia.
Qed.

(** C8, with the length of a string counted as the code counts it.  The
    validator [RangeValidator(0.01, 1000000.0)] accepts [500.0] and
    rejects [-1] and [2000000], given as integers of any numeric type or
    as float64; [MinLengthValidator(8)] rejects every string of 7 bytes
    and accepts every string of 8 bytes, the length being Go's [len];
    it accepts every string of 8 characters, which has at least 8
    bytes. *)
Theorem C8_range_and_min_length :
  let range := serializer.RangeValidator example.price_min example.price_max in
  let rejected :=
    Some (Errorf "number must be between %f and %f"
            [AFloat example.price_min; AFloat example.price_max]) in
  range (VFloat64 (serializer.float64_of_Z 500)) = None ∧
  (∀ t, range (VNum t (-1)) = rejected) ∧
  range (VFloat64 (serializer.float64_of_Z (-1))) = rejected ∧
  (∀ t, range (VNum t 2000000) = rejected) ∧
  range (VFloat64 (serializer.float64_of_Z 2000000)) = rejected ∧
  (∀ str, String.length str = 7%nat →
     serializer.MinLengthValidator 8 (VString str)
     = Some (Errorf "string length is less than minimum of %d" [AInt 8])) ∧
  (∀ str, String.length str = 8%nat →
     serializer.MinLengthValidator 8 (VString str) = None) ∧
  (∀ str, rune_count str = 8%nat →
     serializer.MinLengthValidator 8 (VString str) = None).
Proof.
  cbv zeta.
  split; [vm_compute; reflexivity|].
  split; [intros t; vm_compute; reflexivity|].
  split; [vm_compute; reflexivity|].
  split; [intros t; vm_compute; reflexivity|].
  split; [vm_compute; reflexivity|].
  split; [|split].
  - intros str Hlen. unfold serializer.MinLengthValidator, serializer.len.
    rewrite Hlen. reflexivity.
  - intros str Hlen. unfold serializer.MinLengthValidator, serializer.len.
    rewrite Hlen. reflexivity.
  - intros str Hrunes. apply MinLengthValidator_spec. unfold serializer.len.
    pose proof (rune_count_le_length str). lia.
Qed.

(** C8 as stated fails: [pässwor] has 7 characters and 8 bytes, and
    [MinLengthValidator(8)] accepts it. *)
Lemma C8_seven_characters_accepted :
  ¬ (∀ str, rune_count str = 7%nat →
       serializer.MinLengthValidator 8 (VString str) ≠ None).
Proof.
  intros H. apply (H example.seven_characters); vm_compute; reflexivity.
Qed.

(** ** Column types *)

Lemma append_assoc (a b c : string) : (a +:+ b) +:+ c = a +:+ (b +:+ c).
Proof. induction a as [|x a IH]; [done|]. exact (f_equal (String x) IH). Qed.

Lemma append_nil_r (a : string) : a +:+ "" = a.
Proof. induction a as [|x a IH]; [done|]. exact (f_equal (String x) IH). Qed.

(** Case analysis on a hypothesis [H : k ∈ [k1; ...; kn]]. *)
Ltac kind_cases H :=
  repeat (apply elem_of_cons in H as [-> | H]); try done; by apply elem_of_nil in H.

Section CreateTable.
Context {Store : Type}.
Variable driver_Exec : Store → string → list Value → Store * (orm.Result + error).
Variable fmt_v : Value → string.

Lemma createTable_loop_columns drv it columns primaryKeys foreignKeys :
  (orm.createTable_loop fmt_v drv it columns primaryKeys foreignKeys).1.1
  = columns ++ map (λ nf, orm.column_def fmt_v drv nf.1 nf.2) it.
Proof.
  revert columns primaryKeys foreignKeys.
  induction it as [|[name field] it IH]; intros columns primaryKeys foreignKeys; simpl.
  - by rewrite app_nil_r.
  - rewrite IH. by rewrite <- app_assoc.
Qed.

Lemma column_def_prefix drv name field :
  ∃ constraints,
    orm.column_def fmt_v drv name field
    = name +:+ " " +:+ orm.getSQLType field drv +:+ constraints.
Proof.
  unfold orm.column_def.
  destruct (models.NotNull field), (models.Unique field),
    (negb (is_nil (models.Default field))),
    (models.AutoIncrement field && bool_decide (drv = "mysql"));
    first [ by (exists ""; rewrite append_nil_r)
          | by (eexists; rewrite !append_assoc; reflexivity) ].
Qed.

(** C6, with the integer types grouped as the code groups them, by kind
    and not by width.  [getSQLType] maps bool to BOOLEAN; int8, int16,
    int32 and their unsigned counterparts, and also int and uint
    whatever the width the platform gives them, to INTEGER; int64 and
    uint64 to BIGINT; uintptr to TEXT; float32 and float64 to REAL;
    string to VARCHAR(max_length) when max_length > 0 and to TEXT
    otherwise; [time.Time] to DATETIME on the mysql driver and to
    TIMESTAMP on every other.  So among the integer kinds of fixed
    width, those of 32 bits or fewer give INTEGER and those of 64 bits
    give BIGINT.  [createTable] executes one statement whose column list
    starts, field by field in the order of its loop, with the field's
    name followed by that type. *)
Theorem C6_column_types (field : models.Field) (drv : string) :
  let kind := reflect.type_Kind (models.Type_ field) in
  (kind = reflect.Bool → orm.getSQLType field drv = "BOOLEAN") ∧
  (kind ∈ [reflect.Int; reflect.Int8; reflect.Int16; reflect.Int32;
           reflect.Uint; reflect.Uint8; reflect.Uint16; reflect.Uint32] →
     orm.getSQLType field drv = "INTEGER") ∧
  (kind ∈ [reflect.Int64; reflect.Uint64] → orm.getSQLType field drv = "BIGINT") ∧
  (kind ∈ [reflect.Float32; reflect.Float64] → orm.getSQLType field drv = "REAL") ∧
  (kind = reflect.String → (0 < models.MaxLength field)%Z →
     orm.getSQLType field drv = "VARCHAR(" +:+ pretty (models.MaxLength field) +:+ ")") ∧
  (kind = reflect.String → (models.MaxLength field ≤ 0)%Z →
     orm.getSQLType field drv = "TEXT") ∧
  (models.Type_ field = time_Time_Type → drv = "mysql" →
     orm.getSQLType field drv = "DATETIME") ∧
  (models.Type_ field = time_Time_Type → drv ≠ "mysql" →
     orm.getSQLType field drv = "TIMESTAMP") ∧
  (kind = reflect.Uintptr → orm.getSQLType field drv = "TEXT") ∧
  (∀ word bits, integer_bits word kind = Some bits →
     kind ∉ [reflect.Int; reflect.Uint; reflect.Uintptr] →
     ((bits ≤ 32)%Z → orm.getSQLType field drv = "INTEGER") ∧
     (bits = 64 → orm.getSQLType field drv = "BIGINT")) ∧
  (∀ word, kind ∈ [reflect.Int; reflect.Uint] →
     integer_bits word kind = Some word ∧ orm.getSQLType field drv = "INTEGER") ∧
  (∀ (o : orm.ORM) (model : models.Model) it,
     let o' := (orm.createTable driver_Exec fmt_v it o model).1 in
     orm.executed (orm.db o')
     = orm.executed (orm.db o)
       ++ [(orm.createTable_query fmt_v (orm.driver o) it model, [])] ∧
     ∃ columns constraints,
       orm.createTable_query fmt_v (orm.driver o) it model
       = "CREATE TABLE IF NOT EXISTS " +:+ models.TableName model
         +:+ " (" +:+ orm.Join (columns ++ constraints) ", " +:+ ")" ∧
       Forall2 (λ nf column, ∃ rest,
                  column = nf.1 +:+ " " +:+ orm.getSQLType nf.2 (orm.driver o) +:+ rest)
               it columns).
Proof.
  cbv zeta. unfold orm.getSQLType.
  split; [by intros ->|].
  split; [intros H; kind_cases H|].
  split; [intros H; kind_cases H|].
  split; [intros H; kind_cases H|].
  split; [intros -> Hpos; by rewrite bool_decide_eq_true_2|].
  split; [intros -> Hpos; rewrite bool_decide_eq_false_2; [done|lia]|].
  split; [intros -> ->; done|].
  split; [intros -> Hne; simpl; by rewrite (bool_decide_eq_false_2 _ Hne)|].
  split.
  { intros Hk. rewrite Hk. case_bool_decide as Ht; [|done].
    rewrite Ht in Hk. discriminate Hk. }
  split.
  { intros word bits Hbits Hfixed.
    destruct (reflect.type_Kind (models.Type_ field)); simpl in Hbits; try done;
      try (destruct Hfixed; rewrite !elem_of_cons; by auto);
      injection Hbits as <-; (split; [done|done]). }
  split.
  { intros word H. kind_cases H. }
  intros o model it. split.
  - unfold orm.createTable, orm.Exec.
    by destruct (driver_Exec _ _ _).
  - unfold orm.createTable_query.
    pose proof (createTable_loop_columns (orm.driver o) it [] [] []) as Hcols.
    destruct (orm.createTable_loop fmt_v (orm.driver o) it [] [] [])
      as [[columns primaryKeys] foreignKeys].
    simpl in Hcols. subst columns.
    exists (map (λ nf, orm.column_def fmt_v (orm.driver o) nf.1 nf.2) it).
    assert (Hprefix : Forall2
              (λ nf column, ∃ rest,
                 column = nf.1 +:+ " " +:+ orm.getSQLType nf.2 (orm.driver o) +:+ rest)
              it (map (λ nf, orm.column_def fmt_v (orm.driver o) nf.1 nf.2) it)).
    { clear. induction it as [|[name f] it IH]; simpl; constructor; [|done].
      apply column_def_prefix. }
    case_bool_decide; eexists; (split; [|exact Hprefix]).
    + rewrite <- app_assoc. reflexivity.
    + reflexivity.
Qed.

End CreateTable.

(** C6 as stated fails where [int] has 64 bits: a field of type [int], a
    64-bit integer there, gets INTEGER and not BIGINT. *)
Lemma C6_int_not_BIGINT :
  ¬ (∀ (field : models.Field) (drv : string),
       integer_bits 64 (reflect.type_Kind (models.Type_ field)) = Some 64%Z →
       orm.getSQLType field drv = "BIGINT").
Proof.
  intros H. specialize (H example.id_field "mysql" eq_refl).
  vm_compute in H. discriminate H.
Qed.

Example getSQLType_username : orm.getSQLType example.username_field "mysql" = "VARCHAR(50)".
Proof. vm_compute. reflexivity. Qed.

Example createTable_users :
  orm.createTable_query (λ _, "") "mysql" example.users_fields example.users
  = "CREATE TABLE IF NOT EXISTS users (id INTEGER AUTO_INCREMENT, username VARCHAR(50) NOT NULL UNIQUE, email VARCHAR(100) NOT NULL UNIQUE, PRIMARY KEY (id))".
Proof. vm_compute. reflexivity. Qed.

(** ** Construction of serializers *)

Lemma range_of_to_map {V} (m : gmap string V) it :
  range_of m it → list_to_map it = m.
Proof.
  intros H. unfold range_of in H.
  rewrite (list_to_map_proper it (map_to_list m)).
  - apply list_to_map_to_list.
  - by apply (range_of_NoDup m).
  - done.
Qed.

Lemma New_loop_lookup it fields name :
  NoDup it.*1 →
  serializer.New_loop it fields !! name =
  match (list_to_map it : gmap string models.Field) !! name with
  | Some modelField => Some (serializer.New_field name modelField)
  | None => fields !! name
  end.
Proof.
  revert fields. induction it as [|[n mf] it IH]; intros fields Hnd; simpl.
  - by rewrite lookup_empty.
  - apply NoDup_cons in Hnd as [Hn Hnd]. rewrite IH by done.
    destruct (decide (n = name)) as [->|Hne].
    + rewrite lookup_insert_eq.
      rewrite (not_elem_of_list_to_map_1 it name Hn).
      by rewrite lookup_insert_eq.
    + rewrite !lookup_insert_ne by done. done.
Qed.

Lemma New_lookup model it name :
  range_of (models.Fields model) it →
  serializer.Fields (serializer.New it model) !! name
  = serializer.New_field name <$> models.Fields model !! name.
Proof.
  intros Hit. unfold serializer.New. simpl.
  rewrite New_loop_lookup by (by apply (range_of_NoDup (models.Fields model))).
  rewrite (range_of_to_map _ _ Hit), lookup_empty.
  by destruct (models.Fields model !! name).
Qed.

(** C7. [New] derives exactly one serializer field per model field, under
    the same name: the two field sets have the same names and the same
    size.  The derived field is required exactly when the model field
    is not-null and has no default; it carries the validator
    [MaxLengthValidator(max_length)] when the model field has the kind
    string and max_length > 0, and no validator otherwise.  This holds
    for every order in which [New] ranges over the model's fields. *)
Theorem C7_New (model : models.Model) it :
  range_of (models.Fields model) it →
  let s := serializer.New it model in
  dom (serializer.Fields s) = dom (models.Fields model) ∧
  size (serializer.Fields s) = size (models.Fields model) ∧
  ∀ name modelField, models.Fields model !! name = Some modelField →
    ∃ field, serializer.Fields s !! name = Some field ∧
      serializer.Name field = name ∧
      serializer.SourceField field = name ∧
      serializer.Type_ field = models.Type_ modelField ∧
      (serializer.Required field = true ↔
         models.NotNull modelField = true ∧ models.Default modelField = VNil) ∧
      (reflect.type_Kind (models.Type_ modelField) = reflect.String →
       (0 < models.MaxLength modelField)%Z →
         serializer.Validators field
         = [serializer.MaxLengthValidator (models.MaxLength modelField)]) ∧
      (reflect.type_Kind (models.Type_ modelField) ≠ reflect.String
       ∨ (models.MaxLength modelField ≤ 0)%Z →
         serializer.Validators field = []).
Proof.
  intros Hit s.
  assert (Hdom : dom (serializer.Fields s) = dom (models.Fields model)).
  { apply set_eq. intros name. rewrite !elem_of_dom. unfold s.
    rewrite (New_lookup _ _ _ Hit). by rewrite fmap_is_Some. }
  split; [done|]. split.
  { rewrite <- !size_dom. by rewrite Hdom. }
  intros name modelField Hname.
  exists (serializer.New_field name modelField). split.
  { unfold s. by rewrite (New_lookup _ _ _ Hit), Hname. }
  simpl. split; [done|]. split; [done|]. split; [done|]. split; [|split].
  - rewrite andb_true_iff. unfold is_nil.
    split; intros [H1 H2]; split; try done; by destruct (models.Default modelField).
  - intros Hk Hlen. by rewrite !bool_decide_eq_true_2.
  - intros [Hk|Hlen].
    + rewrite (bool_decide_eq_false_2 _ Hk). by rewrite andb_false_r.
    + rewrite bool_decide_eq_false_2 by lia. done.
Qed.

Lemma C7_New_witness :
  range_of (models.Fields example.users) example.users_fields ∧
  size (serializer.Fields (serializer.New example.users_fields example.users)) = 3%nat.
Proof.
  split; [exact users_fields_range|].
  pose proof (C7_New example.users example.users_fields users_fields_range) as (_ & Hsize & _).
  rewrite Hsize. vm_compute. reflexivity.
Defined.

Example New_users_username :
  serializer.Fields (serializer.New example.users_fields example.users) !! "username"
  = Some {|
      serializer.Name := "username"; serializer.Type_ := string_Type;
      serializer.Required := true; serializer.ReadOnly := false;
      serializer.WriteOnly := false; serializer.Default := VNil;
      serializer.Validators := [serializer.MaxLengthValidator 50];
      serializer.SourceField := "username"; serializer.ErrorMessages := ∅ |}.
Proof. vm_compute. reflexivity. Qed.

(** C10. [AddField] stores under [name] the field obtained by applying
    the options, in order, to a fresh field whose required flag is
    false, whose validator list is empty and whose source field is
    [name].  The field stored before under that name plays no part: two
    serializers that agree on every other name end with the same field
    set, so a required flag or a model-derived max-length validator of
    the replaced field survives only if an option sets it again.  Every
    other name keeps its field. *)
Theorem C10_AddField (s : serializer.Serializer) (name : string) (fieldType : rtype)
  (options : list serializer.option_) :
  let s' := serializer.AddField s name fieldType options in
  (∃ fresh,
     serializer.Name fresh = name ∧ serializer.Type_ fresh = fieldType ∧
     serializer.Required fresh = false ∧ serializer.Validators fresh = [] ∧
     serializer.SourceField fresh = name ∧
     serializer.ReadOnly fresh = false ∧ serializer.WriteOnly fresh = false ∧
     serializer.Default fresh = VNil ∧
     serializer.Fields s' !! name = Some (fold_left (λ f option, option f) options fresh)) ∧
  (options = [] →
     ∃ field, serializer.Fields s' !! name = Some field ∧
       serializer.Required field = false ∧ serializer.Validators field = [] ∧
       serializer.SourceField field = name) ∧
  (∀ other, other ≠ name → serializer.Fields s' !! other = serializer.Fields s !! other) ∧
  (∀ previous,
     serializer.Fields
       (serializer.AddField
          {| serializer.Model := serializer.Model s;
             serializer.Fields := <[name := previous]> (serializer.Fields s) |}
          name fieldType options)
     = serializer.Fields s').
Proof.
  cbv zeta. unfold serializer.AddField. simpl. split; [|split; [|split]].
  - eexists. split_and!; [..|apply lookup_insert_eq]; reflexivity.
  - intros ->. eexists. split; [apply lookup_insert_eq|]. done.
  - intros other Hne. by rewrite lookup_insert_ne.
  - intros previous. by rewrite insert_insert_eq.
Qed.

Example AddField_drops_derived :
  let s := serializer.New example.users_fields example.users in
  let s' := serializer.AddField s "username" string_Type [serializer.WithWriteOnly] in
  (serializer.Required <$> serializer.Fields s !! "username") = Some true ∧
  (serializer.Required <$> serializer.Fields s' !! "username") = Some false ∧
  (serializer.Validators <$> serializer.Fields s' !! "username") = Some [] ∧
  (serializer.WriteOnly <$> serializer.Fields s' !! "username") = Some true.
Proof. vm_compute. repeat split. Qed.

(** ** Create and Update on unknown tables and fields *)

Section Rejection.
Context {Store : Type}.
Variable driver_Exec : Store → string → list Value → Store * (orm.Result + error).

Lemma Create_loop_unknown drv tableName fields it column value :
  (column, value) ∈ it → fields !! column = None →
  ∀ columns placeholders values i,
    ∃ err, orm.Create_loop drv tableName fields it columns placeholders values i = inl err.
Proof.
  intros Hin Hnone. induction it as [|[c v] it IH]; intros columns placeholders values i.
  - by apply elem_of_nil in Hin.
  - simpl. destruct (fields !! c) eqn:Hc; [|by eexists].
    apply elem_of_cons in Hin as [Heq|Hin]; [congruence|].
    by apply IH.
Qed.

Lemma Update_loop_unknown drv tableName primaryKey fields it column value :
  (column, value) ∈ it → fields !! column = None →
  ∀ setStatements values i,
    ∃ err, orm.Update_loop drv tableName primaryKey fields it setStatements values i = inl err.
Proof.
  intros Hin Hnone. induction it as [|[c v] it IH]; intros setStatements values i.
  - by apply elem_of_nil in Hin.
  - simpl. destruct (fields !! c) eqn:Hc; [|by eexists].
    apply elem_of_cons in Hin as [Heq|Hin]; [congruence|].
    case_bool_decide; by apply IH.
Qed.

(** C5. When the table is not registered, or some key of the payload is
    not a field of the registered model, [Create] and [Update] return an
    error and leave the ORM as it was: no statement is executed and the
    state of the database is the same.  This holds for every order in
    which the loops range over the payload and over the model's
    fields. *)
Theorem C5_unknown_table_or_field (o : orm.ORM) (tableName : string)
  (data : gmap string Value) (id : Value) it itf :
  range_of data it →
  (orm.models_ o !! tableName = None ∨
   ∃ model column, orm.models_ o !! tableName = Some model ∧
     column ∈ dom data ∧ models.Fields model !! column = None) →
  (∃ err, orm.Create driver_Exec it o tableName = (o, inr err)) ∧
  (∃ err, orm.Update driver_Exec itf it o tableName id = (o, Some err)) ∧
  orm.executed (orm.db (orm.Create driver_Exec it o tableName).1)
    = orm.executed (orm.db o) ∧
  orm.store (orm.db (orm.Create driver_Exec it o tableName).1)
    = orm.store (orm.db o) ∧
  orm.executed (orm.db (orm.Update driver_Exec itf it o tableName id).1)
    = orm.executed (orm.db o) ∧
  orm.store (orm.db (orm.Update driver_Exec itf it o tableName id).1)
    = orm.store (orm.db o).
Proof.
  intros Hit Hbad.
  assert (Hc : ∃ err, orm.Create driver_Exec it o tableName = (o, inr err)).
  { unfold orm.Create. destruct Hbad as [->|(model & column & -> & Hin & Hnone)].
    - by eexists.
    - apply elem_of_dom in Hin as [value Hv].
      apply (range_of_lookup data it) in Hv; [|done].
      destruct (Create_loop_unknown (orm.driver o) tableName (models.Fields model)
                  it column value Hv Hnone [] [] [] 1) as [err ->].
      by eexists. }
  assert (Hu : ∃ err, orm.Update driver_Exec itf it o tableName id = (o, Some err)).
  { unfold orm.Update. destruct Hbad as [->|(model & column & -> & Hin & Hnone)].
    - by eexists.
    - case_bool_decide; [by eexists|].
      apply elem_of_dom in Hin as [value Hv].
      apply (range_of_lookup data it) in Hv; [|done].
      destruct (Update_loop_unknown (orm.driver o) tableName (orm.primaryKey_loop itf)
                  (models.Fields model) it column value Hv Hnone [] [] 1) as [err ->].
      by eexists. }
  destruct Hc as [e1 Hc], Hu as [e2 Hu]. rewrite Hc, Hu. simpl.
  split; [by eexists|]. split; [by eexists|]. done.
Qed.

End Rejection.

Lemma nickname_range :
  range_of ({[ "nickname" := VString "jd" ]} : gmap string Value) [("nickname", VString "jd")].
Proof. unfold range_of. by rewrite map_to_list_singleton. Qed.

Lemma C5_unknown_table_or_field_witness :
  range_of ({[ "nickname" := VString "jd" ]} : gmap string Value) [("nickname", VString "jd")] ∧
  (orm.models_ example.users_orm !! "users" = None ∨
   ∃ model column, orm.models_ example.users_orm !! "users" = Some model ∧
     column ∈ dom ({[ "nickname" := VString "jd" ]} : gmap string Value) ∧
     models.Fields model !! column = None) ∧
  ∃ err, orm.Create example.counting_Exec [("nickname", VString "jd")]
           example.users_orm "users" = (example.users_orm, inr err).
Proof.
  assert (Hbad : orm.models_ example.users_orm !! "users" = None ∨
     ∃ model column, orm.models_ example.users_orm !! "users" = Some model ∧
       column ∈ dom ({[ "nickname" := VString "jd" ]} : gmap string Value) ∧
       models.Fields model !! column = None).
  { right. exists example.users, "nickname". split; [reflexivity|].
    split; [|reflexivity]. rewrite dom_singleton_L. by apply elem_of_singleton. }
  split; [exact nickname_range|]. split; [exact Hbad|].
  exact (proj1 (C5_unknown_table_or_field example.counting_Exec example.users_orm "users"
                  {[ "nickname" := VString "jd" ]} VNil [("nickname", VString "jd")]
                  example.users_fields nickname_range Hbad)).
Defined.

Example Create_users_row :
  orm.Create example.counting_Exec
    [("username", VString "john"); ("email", VString "john@x.com")]
    example.users_orm "users"
  = (orm.set_db example.users_orm
       {| orm.executed :=
            [("INSERT INTO users (username, email) VALUES (?, ?)",
              [VString "john"; VString "john@x.com"])];
          orm.store := 1 |},
     inl 1%Z).
Proof. vm_compute. reflexivity. Qed.

Example Update_users_row :
  orm.executed (orm.db (orm.Update example.counting_Exec example.users_fields
    [("username", VString "johndoe")]
    (orm.set_db example.users_orm
       {| orm.executed := []; orm.store := 1 |}) "users" (VNum t_int 1)).1)
  = [("UPDATE users SET username = ? WHERE id = ?", [VString "johndoe"; VNum t_int 1])].
Proof. vm_compute. reflexivity. Qed.

(** ** Serialize *)

Lemma visible_keys_empty s : visible_keys s ∅.
Proof. intros name [v Hv]. by rewrite lookup_empty in Hv. Qed.

Lemma visible_keys_insert s result name field v :
  serializer.Fields s !! name = Some field → serializer.WriteOnly field = false →
  visible_keys s result → visible_keys s (<[name := v]> result).
Proof.
  intros Hf Hw Hres other Hsome.
  destruct (decide (name = other)) as [<-|Hne]; [by exists field|].
  rewrite lookup_insert_ne in Hsome by done. by apply Hres.
Qed.

Lemma Serialize_struct_visible s fields result :
  visible_keys s result → visible_keys s (serializer.Serialize_struct s fields result).
Proof.
  revert result. induction fields as [|[field v] fields IH]; intros result Hres; simpl; [done|].
  case_bool_decide; [by apply IH|].
  destruct (if bool_decide (sf_json field ≠ "") then _ else _) as [name|]; [|by apply IH].
  destruct (serializer.Fields s !! name) as [serializerField|] eqn:Hname; [|by apply IH].
  destruct (serializer.WriteOnly serializerField) eqn:Hw; [by apply IH|].
  apply IH. by apply (visible_keys_insert s result name serializerField).
Qed.

Lemma Serialize_map_visible s entries result :
  visible_keys s result → visible_keys s (serializer.Serialize_map s entries result).
Proof.
  revert result. induction entries as [|[key v] entries IH]; intros result Hres; simpl; [done|].
  destruct (serializer.Fields s !! serializer.Value_String key) as [serializerField|] eqn:Hname;
    [|by apply IH].
  destruct (serializer.WriteOnly serializerField) eqn:Hw; [by apply IH|].
  apply IH. by apply (visible_keys_insert s result _ serializerField).
Qed.

(** The value whose kind [Serialize] tests: the input, or what it points to. *)
Lemma Elem_kind data k :
  k ≠ reflect.Invalid → ValueKind (serializer.Elem data) = k →
  ∃ tname target, data = VPtr tname (Some target) ∧ ValueKind target = k.
Proof.
  intros Hk Helem.
  destruct data as [| | | | | | | tname [target|] | | |]; simpl in Helem;
    try (by cbv in Helem; congruence).
  by exists tname, target.
Qed.

Lemma shape_iff data :
  let val := if bool_decide (ValueKind data = reflect.Ptr)
             then serializer.Elem data else data in
  ValueKind val = reflect.Struct ∨ ValueKind val = reflect.Map ↔
  serializer.struct_like data ∨ serializer.map_like data.
Proof.
  unfold serializer.struct_like, serializer.map_like. case_bool_decide as Hptr; simpl.
  - split.
    + intros [Hk|Hk]; apply Elem_kind in Hk; try done; [left|right]; by right.
    + intros [[Hk|(? & ? & -> & Hk)]|[Hk|(? & ? & -> & Hk)]]; try congruence;
        simpl; by auto.
  - split.
    + intros [Hk|Hk]; [left|right]; by left.
    + intros [[Hk|(? & ? & -> & Hk)]|[Hk|(? & ? & -> & Hk)]]; try done; by auto.
Qed.

Lemma Serialize_fails_iff s data :
  (∃ err, serializer.Serialize s data = inr err) ↔
  ¬ (serializer.struct_like data ∨ serializer.map_like data).
Proof.
  rewrite <- shape_iff. unfold serializer.Serialize. cbv zeta.
  set (val := if bool_decide (ValueKind data = reflect.Ptr)
              then serializer.Elem data else data).
  destruct (decide (ValueKind val = reflect.Struct)) as [Hs|Hs];
    [|destruct (decide (ValueKind val = reflect.Map)) as [Hm|Hm]].
  - rewrite (bool_decide_eq_false_2 (ValueKind val ≠ reflect.Struct)) by auto.
    rewrite (bool_decide_eq_true_2 _ Hs). simpl.
    split; [by intros [err Herr]|]. intros Hn. destruct Hn. by left.
  - rewrite (bool_decide_eq_true_2 (ValueKind val ≠ reflect.Struct)) by auto.
    rewrite (bool_decide_eq_false_2 (ValueKind val ≠ reflect.Map)) by auto.
    rewrite (bool_decide_eq_false_2 _ Hs), (bool_decide_eq_true_2 _ Hm). simpl.
    split; [by intros [err Herr]|]. intros Hn. destruct Hn. by right.
  - rewrite (bool_decide_eq_true_2 (ValueKind val ≠ reflect.Struct)) by auto.
    rewrite (bool_decide_eq_true_2 (ValueKind val ≠ reflect.Map)) by auto. simpl.
    split; [|by eauto]. by intros _ [?|?].
Qed.

(** C3. Whatever the input, every key of the mapping that [Serialize]
    returns is a field of the serializer that is not write-only: a
    write-only field is never in the output, present in the input or
    not, and neither is a key outside the field set.  [Serialize] fails
    exactly when the input is neither struct-like nor map-like: structs,
    maps and non-nil pointers to them are accepted; the nil interface,
    nil pointers, and values of every other kind are refused. *)
Theorem C3_Serialize (s : serializer.Serializer) (data : Value) :
  (∀ result, serializer.Serialize s data = inl result →
     ∀ name,
       (∀ field, serializer.Fields s !! name = Some field →
          serializer.WriteOnly field = true → result !! name = None) ∧
       (serializer.Fields s !! name = None → result !! name = None)) ∧
  ((∃ err, serializer.Serialize s data = inr err) ↔
     ¬ (serializer.struct_like data ∨ serializer.map_like data)) ∧
  (∀ tname fields,
     (∃ result, serializer.Serialize s (VStruct tname fields) = inl result) ∧
     (∃ result, serializer.Serialize s (VPtr ("*" +:+ tname) (Some (VStruct tname fields)))
                = inl result)) ∧
  (∀ tname entries, ∃ result, serializer.Serialize s (VMap tname entries) = inl result) ∧
  (∀ tname, ∃ err, serializer.Serialize s (VPtr tname None) = inr err) ∧
  (∃ err, serializer.Serialize s VNil = inr err) ∧
  (∀ str, ∃ err, serializer.Serialize s (VString str) = inr err).
Proof.
  split; [|split; [apply Serialize_fails_iff|]].
  - intros result Hres name.
    assert (Hvis : visible_keys s result).
    { unfold serializer.Serialize in Hres.
      destruct (_ && _); [done|].
      repeat case_bool_decide; injection Hres as <-;
        auto using Serialize_struct_visible, Serialize_map_visible, visible_keys_empty. }
    split.
    + intros field Hf Hw. destruct (result !! name) eqn:Hr; [|done].
      destruct (Hvis name) as (field' & Hf' & Hw'); [by eexists|]. congruence.
    + intros Hf. destruct (result !! name) eqn:Hr; [|done].
      destruct (Hvis name) as (field' & Hf' & Hw'); [by eexists|]. congruence.
  - split; [|split; [|split; [|split]]].
    + intros tname fields. split; eexists; reflexivity.
    + intros tname entries. eexists. reflexivity.
    + intros tname. by eexists.
    + by eexists.
    + intros str. by eexists.
Qed.

(** ** The loops of Deserialize and Validate *)

Lemma is_nil_true v : is_nil v = true ↔ v = VNil.
Proof. by destruct v. Qed.

Lemma is_nil_false v : is_nil v = false ↔ v ≠ VNil.
Proof. by destruct v. Qed.

(** The validators run in the order of the list; the first failure is returned. *)
Lemma run_validators_Some validators value err :
  serializer.run_validators validators value = Some err ↔
  ∃ passed validator rest,
    validators = passed ++ validator :: rest ∧
    Forall (λ v : serializer.Validator, v value = None) passed ∧
    validator value = Some err.
Proof.
  induction validators as [|v validators IH]; simpl.
  - split; [done|]. intros (passed & w & rest & Heq & _). by destruct passed.
  - destruct (v value) as [e|] eqn:Hv.
    + split.
      * intros [= ->]. exists [], v, validators. by repeat split.
      * intros ([|p passed] & w & rest & Heq & Hpassed & Hw); simplify_eq/=;
          try congruence.
        apply Forall_cons in Hpassed as [Hp _]. congruence.
    + rewrite IH. split.
      * intros (passed & w & rest & -> & Hpassed & Hw).
        exists (v :: passed), w, rest. split; [done|]. split; [|done]. by constructor.
      * intros ([|p passed] & w & rest & Heq & Hpassed & Hw); simplify_eq/=;
          try congruence.
        apply Forall_cons in Hpassed as [_ Hpassed]. by exists passed, w, rest.
Qed.

Lemma run_validators_None validators value :
  serializer.run_validators validators value = None ↔
  Forall (λ v : serializer.Validator, v value = None) validators.
Proof.
  induction validators as [|v validators IH]; simpl.
  - split; [by constructor|done].
  - destruct (v value) eqn:Hv.
    + split; [done|]. intros H. apply Forall_cons in H as [H _]. congruence.
    + rewrite IH. split; [by constructor|]. intros H. by apply Forall_cons in H as [_ H].
Qed.

Lemma Deserialize_defaults_Some data it acc k d :
  serializer.Deserialize_defaults data it acc !! k = Some d →
  acc !! k = Some d ∨
  ∃ name field, (name, field) ∈ it ∧ defaulted data name field ∧
    serializer.SourceField field = k ∧ d = serializer.Default field.
Proof.
  revert acc. induction it as [|[name field] it IH]; intros acc; simpl; [by left|].
  assert (Hskip : serializer.Deserialize_defaults data it acc !! k = Some d →
            acc !! k = Some d ∨
            ∃ name0 field0, (name0, field0) ∈ (name, field) :: it ∧ defaulted data name0 field0 ∧
              serializer.SourceField field0 = k ∧ d = serializer.Default field0).
  { intros H. apply IH in H as [H|(n & f & Hin & H)]; [by left|].
    right. exists n, f. split; [by right|done]. }
  destruct (serializer.ReadOnly field) eqn:Hro; [done|].
  destruct (is_nil (serializer.Default field)) eqn:Hnil; simpl; [done|].
  destruct (data !! name) eqn:Hdata; [done|].
  intros H. apply IH in H as [H|(n & f & Hin & H)].
  - destruct (decide (serializer.SourceField field = k)) as [<-|Hne].
    + rewrite lookup_insert_eq in H. injection H as <-.
      right. exists name, field. split; [by left|]. repeat split; try done.
      by apply is_nil_false.
    + rewrite lookup_insert_ne in H by done. by left.
  - right. exists n, f. split; [by right|done].
Qed.

Lemma Deserialize_defaults_keeps data it acc k :
  is_Some (acc !! k) → is_Some (serializer.Deserialize_defaults data it acc !! k).
Proof.
  revert acc. induction it as [|[name field] it IH]; intros acc Hacc; simpl; [done|].
  destruct (serializer.ReadOnly field); [by apply IH|].
  destruct (negb _); [|by apply IH].
  destruct (data !! name); [by apply IH|].
  apply IH. destruct (decide (serializer.SourceField field = k)) as [<-|Hne].
  - rewrite lookup_insert_eq. by eexists.
  - by rewrite lookup_insert_ne.
Qed.

Lemma Deserialize_defaults_writes data it acc name field :
  (name, field) ∈ it → defaulted data name field →
  is_Some (serializer.Deserialize_defaults data it acc !! serializer.SourceField field).
Proof.
  intros Hin (Hro & Hd & Hdata). revert acc.
  induction it as [|[n f] it IH]; intros acc; [by apply elem_of_nil in Hin|].
  apply elem_of_cons in Hin as [[= <- <-]|Hin]; simpl.
  - rewrite Hro. apply is_nil_false in Hd. rewrite Hd, Hdata. simpl.
    apply Deserialize_defaults_keeps. rewrite lookup_insert_eq. by eexists.
  - destruct (serializer.ReadOnly f); [by apply IH|].
    destruct (negb _); [|by apply IH].
    destruct (data !! n); by apply IH.
Qed.

(** The copy loop stops at the first entry, in the order of the loop,
    that it checks and that does not validate. *)
Lemma Deserialize_copy_inl s it acc err :
  serializer.Deserialize_copy s it acc = inl err →
  ∃ before name value after field,
    it = before ++ (name, value) :: after ∧
    copied s name field ∧
    serializer.validateField s name value = Some err ∧
    ∀ n v f, (n, v) ∈ before → copied s n f → serializer.validateField s n v = None.
Proof.
  revert acc. induction it as [|[name value] it IH]; intros acc; simpl; [done|].
  assert (Hskip : ¬ (∃ f, copied s name f) →
            serializer.Deserialize_copy s it acc = inl err →
            ∃ before name0 value0 after field,
              (name, value) :: it = before ++ (name0, value0) :: after ∧
              copied s name0 field ∧
              serializer.validateField s name0 value0 = Some err ∧
              ∀ n v f, (n, v) ∈ before → copied s n f →
                       serializer.validateField s n v = None).
  { intros Hnot H. apply IH in H as (before & n & v & after & f & -> & Hc & Hv & Hbefore).
    exists ((name, value) :: before), n, v, after, f. repeat split; try done; try apply Hc.
    intros n' v' f' Hin Hc'. apply elem_of_cons in Hin as [[= -> ->]|Hin].
    - destruct Hnot. by exists f'.
    - by apply (Hbefore n' v' f'). }
  destruct (serializer.Fields s !! name) as [field|] eqn:Hname.
  - destruct (serializer.ReadOnly field) eqn:Hro.
    + apply Hskip. intros [f [Hf Hr]]. congruence.
    + destruct (serializer.validateField s name value) as [e|] eqn:Hv.
      * intros [= ->]. exists [], name, value, it, field. repeat split; try done.
        intros n v f Hin. by apply elem_of_nil in Hin.
      * intros H. apply IH in H as (before & n & v & after & f & -> & Hc & Hv' & Hbefore).
        exists ((name, value) :: before), n, v, after, f. repeat split; try done; try apply Hc.
        intros n' v' f' Hin Hc'. apply elem_of_cons in Hin as [[= -> ->]|Hin]; [done|].
        by apply (Hbefore n' v' f').
  - apply Hskip. intros [f [Hf Hr]]. congruence.
Qed.

Lemma Deserialize_copy_inr s it acc :
  (∃ result, serializer.Deserialize_copy s it acc = inr result) ↔
  ∀ name value field, (name, value) ∈ it → copied s name field →
    serializer.validateField s name value = None.
Proof.
  split.
  - intros [result Hres] name value field Hin [Hf Hro]. revert acc Hres.
    induction it as [|[n v] it IH]; intros acc; [by apply elem_of_nil in Hin|].
    simpl. apply elem_of_cons in Hin as [[= <- <-]|Hin].
    + rewrite Hf, Hro. by destruct (serializer.validateField s name value).
    + destruct (serializer.Fields s !! n) as [f|]; [|by apply IH].
      destruct (serializer.ReadOnly f); [by apply IH|].
      destruct (serializer.validateField s n v); [done|by apply IH].
  - intros Hall. destruct (serializer.Deserialize_copy s it acc) as [err|result] eqn:Hres;
      [|by eexists].
    apply Deserialize_copy_inl in Hres as (before & n & v & after & f & -> & Hc & Hv & _).
    rewrite (Hall n v f) in Hv; [done| |done].
    apply elem_of_app. right. by left.
Qed.

Lemma Deserialize_copy_Some s it acc result k v :
  serializer.Deserialize_copy s it acc = inr result → result !! k = Some v →
  acc !! k = Some v ∨
  ∃ name field, (name, v) ∈ it ∧ copied s name field ∧ serializer.SourceField field = k.
Proof.
  revert acc. induction it as [|[n w] it IH]; intros acc; simpl.
  - intros [= <-] Hk. by left.
  - assert (Hskip : serializer.Deserialize_copy s it acc = inr result → result !! k = Some v →
              acc !! k = Some v ∨
              ∃ name field, (name, v) ∈ (n, w) :: it ∧ copied s name field ∧
                serializer.SourceField field = k).
    { intros H Hk. destruct (IH _ H Hk) as [?|(name & field & Hin & ?)]; [by left|].
      right. exists name, field. split; [by right|done]. }
    destruct (serializer.Fields s !! n) as [f|] eqn:Hn; [|done].
    destruct (serializer.ReadOnly f) eqn:Hro; [done|].
    destruct (serializer.validateField s n w); [done|].
    intros H Hk. destruct (IH _ H Hk) as [Hacc|(name & field & Hin & ?)].
    + destruct (decide (serializer.SourceField f = k)) as [<-|Hne].
      * rewrite lookup_insert_eq in Hacc. injection Hacc as ->.
        right. exists n, f. split; [by left|]. by repeat split.
      * rewrite lookup_insert_ne in Hacc by done. by left.
    + right. exists name, field. split; [by right|done].
Qed.

Lemma Deserialize_copy_keeps s it acc result k :
  serializer.Deserialize_copy s it acc = inr result →
  is_Some (acc !! k) → is_Some (result !! k).
Proof.
  revert acc. induction it as [|[n w] it IH]; intros acc; simpl.
  - by intros [= <-].
  - destruct (serializer.Fields s !! n) as [f|]; [|by apply IH].
    destruct (serializer.ReadOnly f); [by apply IH|].
    destruct (serializer.validateField s n w); [done|].
    intros H Hk. apply (IH _ H).
    destruct (decide (serializer.SourceField f = k)) as [<-|Hne].
    + rewrite lookup_insert_eq. by eexists.
    + by rewrite lookup_insert_ne.
Qed.

Lemma Deserialize_copy_writes s it acc result name value field :
  serializer.Deserialize_copy s it acc = inr result →
  (name, value) ∈ it → copied s name field →
  is_Some (result !! serializer.SourceField field).
Proof.
  intros Hres Hin [Hf Hro]. revert acc Hres.
  induction it as [|[n w] it IH]; intros acc; [by apply elem_of_nil in Hin|].
  simpl. apply elem_of_cons in Hin as [[= <- <-]|Hin].
  - rewrite Hf, Hro. destruct (serializer.validateField s name value); [done|].
    intros H. apply (Deserialize_copy_keeps _ _ _ _ _ H).
    rewrite lookup_insert_eq. by eexists.
  - destruct (serializer.Fields s !! n) as [f|]; [|by apply IH].
    destruct (serializer.ReadOnly f); [by apply IH|].
    destruct (serializer.validateField s n w); [done|by apply IH].
Qed.

Lemma Deserialize_copy_untouched s it acc result k :
  serializer.Deserialize_copy s it acc = inr result →
  (∀ name value field, (name, value) ∈ it → copied s name field →
     serializer.SourceField field ≠ k) →
  result !! k = acc !! k.
Proof.
  revert acc. induction it as [|[n w] it IH]; intros acc; simpl.
  - by intros [= <-].
  - intros H Hother.
    assert (Hrest : ∀ name value field, (name, value) ∈ it → copied s name field →
              serializer.SourceField field ≠ k).
    { intros name value field Hin. apply (Hother name value field). by right. }
    destruct (serializer.Fields s !! n) as [f|] eqn:Hn; [|by apply IH].
    destruct (serializer.ReadOnly f) eqn:Hro; [by apply IH|].
    destruct (serializer.validateField s n w); [done|].
    rewrite (IH _ H Hrest). apply lookup_insert_ne.
    apply (Hother n w f); [by left|done].
Qed.

Lemma Deserialize_required_Some it result err :
  serializer.Deserialize_required it result = Some err →
  ∃ name field, (name, field) ∈ it ∧ serializer.Required field = true ∧
    result !! serializer.SourceField field = None ∧
    err = Errorf "field %s is required" [AStr name].
Proof.
  induction it as [|[n f] it IH]; simpl; [done|].
  assert (Hskip : serializer.Deserialize_required it result = Some err →
            ∃ name field, (name, field) ∈ (n, f) :: it ∧ serializer.Required field = true ∧
              result !! serializer.SourceField field = None ∧
              err = Errorf "field %s is required" [AStr name]).
  { intros H. apply IH in H as (name & field & Hin & ?).
    exists name, field. split; [by right|done]. }
  destruct (serializer.Required f) eqn:Hreq; [|done].
  destruct (result !! serializer.SourceField f) eqn:Hk; [done|].
  intros [= <-]. exists n, f. split; [by left|done].
Qed.

Lemma Deserialize_required_None it result :
  serializer.Deserialize_required it result = None ↔
  ∀ name field, (name, field) ∈ it → serializer.Required field = true →
    is_Some (result !! serializer.SourceField field).
Proof.
  induction it as [|[n f] it IH]; simpl.
  - split; [|done]. intros _ name field Hin. by apply elem_of_nil in Hin.
  - destruct (serializer.Required f) eqn:Hreq.
    + destruct (result !! serializer.SourceField f) eqn:Hk.
      * rewrite IH. split.
        -- intros H name field Hin Hr. apply elem_of_cons in Hin as [[= -> ->]|Hin].
           ++ by eexists.
           ++ by apply (H name).
        -- intros H name field Hin. apply (H name field). by right.
      * split; [done|]. intros H. destruct (H n f) as [x Hx]; [by left|done|congruence].
    + rewrite IH. split.
      * intros H name field Hin Hr. apply elem_of_cons in Hin as [[= -> ->]|Hin].
        -- congruence.
        -- by apply (H name).
      * intros H name field Hin. apply (H name field). by right.
Qed.

(** ** Deserialize *)

Lemma validateField_typed s name value field :
  serializer.Fields s !! name = Some field →
  value = VNil ∨ TypeOf value = Some (serializer.Type_ field) →
  serializer.validateField s name value
  = serializer.run_validators (serializer.Validators field) value.
Proof.
  intros Hf Hty. unfold serializer.validateField. rewrite Hf.
  destruct Hty as [->|Hty].
  - by rewrite andb_false_r.
  - by rewrite (bool_decide_eq_false_2 (TypeOf value ≠ _)) by auto.
Qed.

Section Deserialize.
Variable s : serializer.Serializer.
Variable data : gmap string Value.
Variables (it1 : list (string * serializer.Field)) (it2 : list (string * Value))
          (it3 : list (string * serializer.Field)).
Hypothesis Hit1 : range_of (serializer.Fields s) it1.
Hypothesis Hit2 : range_of data it2.
Hypothesis Hit3 : range_of (serializer.Fields s) it3.

Local Abbreviation defaults := (serializer.Deserialize_defaults data it1 ∅).

Lemma defaults_Some k d :
  defaults !! k = Some d →
  ∃ name field, serializer.Fields s !! name = Some field ∧ defaulted data name field ∧
    serializer.SourceField field = k ∧ d = serializer.Default field.
Proof.
  intros H. apply Deserialize_defaults_Some in H as [H|(name & field & Hin & H)].
  - by rewrite lookup_empty in H.
  - exists name, field. split; [|done]. by apply (range_of_lookup _ it1).
Qed.

Lemma defaults_is_Some k :
  is_Some (defaults !! k) ↔
  ∃ name field, serializer.Fields s !! name = Some field ∧ defaulted data name field ∧
    serializer.SourceField field = k.
Proof.
  split.
  - intros [d Hd]. apply defaults_Some in Hd as (name & field & ? & ? & ? & _). by eauto.
  - intros (name & field & Hf & Hd & <-).
    apply (Deserialize_defaults_writes data it1 ∅ name field); [|done].
    by apply (range_of_lookup (serializer.Fields s)).
Qed.

Lemma copy_fails_iff :
  (∃ err, serializer.Deserialize_copy s it2 defaults = inl err) ↔
  ∃ name value field, data !! name = Some value ∧ copied s name field ∧
    serializer.validateField s name value ≠ None.
Proof.
  split.
  - intros [err Herr].
    apply Deserialize_copy_inl in Herr as (before & n & v & after & f & Heq & Hc & Hv & _).
    exists n, v, f. split; [|split; [done|congruence]].
    apply (range_of_lookup data it2); [done|]. rewrite Heq.
    apply elem_of_app. right. by left.
  - intros (name & value & field & Hd & Hc & Hv).
    destruct (serializer.Deserialize_copy s it2 defaults) as [err|result] eqn:Hres;
      [by eexists|].
    destruct Hv. apply (proj1 (Deserialize_copy_inr s it2 defaults)) with field; [by eauto| |done].
    by apply (range_of_lookup data it2).
Qed.

Lemma copy_keys result k :
  serializer.Deserialize_copy s it2 defaults = inr result →
  is_Some (result !! k) ↔
  is_Some (defaults !! k) ∨
  ∃ name field, is_Some (data !! name) ∧ copied s name field ∧
    serializer.SourceField field = k.
Proof.
  intros Hres. split.
  - intros [v Hv].
    destruct (Deserialize_copy_Some _ _ _ _ _ _ Hres Hv) as [H|(name & field & Hin & ?)].
    + left. by eexists.
    + right. exists name, field. split; [|done]. exists v. by apply (range_of_lookup data it2).
  - intros [H|(name & field & [v Hv] & Hc & <-)].
    + by apply (Deserialize_copy_keeps _ _ _ _ _ Hres).
    + apply (Deserialize_copy_writes _ _ _ _ name v field Hres); [|done].
      by apply (range_of_lookup data it2).
Qed.

(** With a sole source name and no entry for [name] in the payload, only
    the defaults loop can write the source name of [field]. *)
Lemma copy_sole_source result name field :
  serializer.Fields s !! name = Some field → sole_source s name field →
  data !! name = None →
  serializer.Deserialize_copy s it2 defaults = inr result →
  result !! serializer.SourceField field = defaults !! serializer.SourceField field.
Proof.
  intros Hf Hsole Hdata Hres.
  apply (Deserialize_copy_untouched _ _ _ _ _ Hres).
  intros n v f Hin [Hnf _] Hsrc.
  apply (range_of_lookup data it2) in Hin; [|done].
  rewrite (Hsole n f Hnf Hsrc) in Hin. congruence.
Qed.

(** C2, its last part restricted to fields that are the only ones stored
    under their source name.  [Deserialize] first writes,
    for each field that is not read-only, declares a default and is
    absent from the payload, the default under the field's source name.
    Then, for each payload key that is a field and not read-only, it
    runs [validateField], which for a value of the field's type is the
    validator chain in declaration order, first failure returned; the
    first such failure in the order of the loop is the error of
    [Deserialize].  When every checked entry validates, [Deserialize]
    fails exactly when the source name of some required field is absent
    from the result.  In particular, for a field that is the only one
    stored under its source name and that the payload lacks: if it is
    required and has no default, [Deserialize] fails; if it is not
    read-only and declares a default, a successful result holds that
    default.  All this for every order of the three loops. *)
Theorem C2_Deserialize :
  let outcome := serializer.Deserialize it1 it2 it3 s data in
  (∀ k, is_Some (defaults !! k) ↔
     ∃ name field, serializer.Fields s !! name = Some field ∧ defaulted data name field ∧
       serializer.SourceField field = k) ∧
  (∀ k d, defaults !! k = Some d →
     ∃ name field, serializer.Fields s !! name = Some field ∧ defaulted data name field ∧
       serializer.SourceField field = k ∧ d = serializer.Default field) ∧
  (∀ name value field err,
     serializer.Fields s !! name = Some field →
     value = VNil ∨ TypeOf value = Some (serializer.Type_ field) →
     serializer.validateField s name value = Some err ↔
     ∃ passed validator rest,
       serializer.Validators field = passed ++ validator :: rest ∧
       Forall (λ v : serializer.Validator, v value = None) passed ∧
       validator value = Some err) ∧
  (∀ err, serializer.Deserialize_copy s it2 defaults = inl err →
     outcome = inr err ∧
     ∃ before name value after field,
       it2 = before ++ (name, value) :: after ∧ copied s name field ∧
       serializer.validateField s name value = Some err ∧
       ∀ n v f, (n, v) ∈ before → copied s n f → serializer.validateField s n v = None) ∧
  ((∃ err, serializer.Deserialize_copy s it2 defaults = inl err) ↔
     ∃ name value field, data !! name = Some value ∧ copied s name field ∧
       serializer.validateField s name value ≠ None) ∧
  (∀ result, serializer.Deserialize_copy s it2 defaults = inr result →
     (∀ k, is_Some (result !! k) ↔
        is_Some (defaults !! k) ∨
        ∃ name field, is_Some (data !! name) ∧ copied s name field ∧
          serializer.SourceField field = k) ∧
     ((∃ err, outcome = inr err) ↔
        ∃ name field, serializer.Fields s !! name = Some field ∧
          serializer.Required field = true ∧
          result !! serializer.SourceField field = None) ∧
     (∀ err, outcome = inr err →
        ∃ name field, serializer.Fields s !! name = Some field ∧
          serializer.Required field = true ∧
          result !! serializer.SourceField field = None ∧
          err = Errorf "field %s is required" [AStr name]) ∧
     ((¬ ∃ err, outcome = inr err) → outcome = inl result)) ∧
  (∀ name field,
     serializer.Fields s !! name = Some field → sole_source s name field →
     data !! name = None →
     (serializer.Required field = true → serializer.Default field = VNil →
        ∃ err, outcome = inr err) ∧
     (serializer.ReadOnly field = false → serializer.Default field ≠ VNil →
        ∀ result, outcome = inl result →
          result !! serializer.SourceField field = Some (serializer.Default field))).
Proof.
  cbv zeta.
  split; [exact defaults_is_Some|]. split; [exact defaults_Some|].
  split.
  { intros name value field err Hf Hty.
    rewrite (validateField_typed s name value field Hf Hty).
    apply run_validators_Some. }
  split.
  { intros err Herr. split.
    - unfold serializer.Deserialize. by rewrite Herr.
    - by apply (Deserialize_copy_inl s it2 defaults). }
  split; [exact copy_fails_iff|]. split.
  { intros result Hres.
    assert (Hout : serializer.Deserialize it1 it2 it3 s data
                   = match serializer.Deserialize_required it3 result with
                     | Some err => inr err
                     | None => inl result
                     end).
    { unfold serializer.Deserialize. by rewrite Hres. }
    split; [intros k; by apply copy_keys|]. rewrite Hout.
    destruct (serializer.Deserialize_required it3 result) as [err|] eqn:Hreq.
    - apply Deserialize_required_Some in Hreq as (name & field & Hin & Hr & Hk & ->).
      apply (range_of_lookup (serializer.Fields s) it3) in Hin; [|done].
      split; [|split].
      + split; [|by eauto]. intros _. by exists name, field.
      + intros err [= <-]. by exists name, field.
      + intros Hn. destruct Hn. by eauto.
    - split; [|split].
      + split; [by intros [err Herr]|].
        intros (name & field & Hf & Hr & Hk).
        apply (range_of_lookup (serializer.Fields s) it3) in Hf; [|done].
        destruct (proj1 (Deserialize_required_None it3 result) Hreq name field Hf Hr)
          as [x Hx].
        congruence.
      + by intros err.
      + done. }
  intros name field Hf Hsole Hdata. split.
  - intros Hr Hd. unfold serializer.Deserialize.
    destruct (serializer.Deserialize_copy s it2 defaults) as [err|result] eqn:Hres;
      [by eauto|].
    destruct (serializer.Deserialize_required it3 result) as [err|] eqn:Hreq; [by eauto|].
    apply (range_of_lookup (serializer.Fields s) it3) in Hf as Hin; [|done].
    destruct (proj1 (Deserialize_required_None it3 result) Hreq name field Hin Hr)
      as [x Hx].
    rewrite (copy_sole_source result name field Hf Hsole Hdata Hres) in Hx.
    apply defaults_Some in Hx as (n & f & Hnf & (_ & Hnd & _) & Hsrc & _).
    pose proof (Hsole n f Hnf Hsrc) as ->. congruence.
  - intros Hro Hd result. unfold serializer.Deserialize.
    destruct (serializer.Deserialize_copy s it2 defaults) as [err|result'] eqn:Hres;
      [done|].
    destruct (serializer.Deserialize_required it3 result'); [done|]. intros [= <-].
    rewrite (copy_sole_source result' name field Hf Hsole Hdata Hres).
    destruct (proj2 (defaults_is_Some (serializer.SourceField field))) as [d Hdef].
    { exists name, field. by repeat split. }
    rewrite Hdef. f_equal.
    apply defaults_Some in Hdef as (n & f & Hnf & _ & Hsrc & ->).
    pose proof (Hsole n f Hnf Hsrc) as ->. congruence.
Qed.

End Deserialize.

Lemma range_of_list {V} (m : gmap string V) (l : list (string * V)) :
  NoDup l.*1 → m = list_to_map l → range_of m l.
Proof. intros Hnd ->. unfold range_of. symmetry. by apply map_to_list_to_map. Qed.

(** Solves [range_of m l] for a closed map [m] and a closed list [l]. *)
Ltac solve_range :=
  apply range_of_list;
  [ apply (bool_decide_unpack _); vm_compute; reflexivity
  | vm_compute; reflexivity ].

Lemma users_serializer_range :
  range_of (serializer.Fields example.users_serializer) example.users_serializer_fields.
Proof. solve_range. Qed.

Lemma username_only_range :
  range_of ({[ "username" := VString "john" ]} : gmap string Value)
    [("username", VString "john")].
Proof. solve_range. Qed.

Lemma C2_Deserialize_witness :
  range_of (serializer.Fields example.users_serializer) example.users_serializer_fields ∧
  range_of ({[ "username" := VString "john" ]} : gmap string Value)
    [("username", VString "john")] ∧
  ∃ err,
    serializer.Deserialize example.users_serializer_fields [("username", VString "john")]
      example.users_serializer_fields example.users_serializer
      {[ "username" := VString "john" ]} = inr err.
Proof.
  split; [exact users_serializer_range|]. split; [exact username_only_range|].
  pose proof (C2_Deserialize example.users_serializer {[ "username" := VString "john" ]}
                example.users_serializer_fields [("username", VString "john")]
                example.users_serializer_fields
                users_serializer_range username_only_range users_serializer_range) as H.
  cbv zeta in H. destruct H as (_ & _ & _ & _ & _ & _ & H).
  apply (H "email" (serializer.New_field "email" example.email_field)); try reflexivity.
  intros name field Hname Hsrc.
  apply (range_of_lookup _ _ _ _ users_serializer_range) in Hname.
  repeat (apply elem_of_cons in Hname as [[= -> ->]|Hname]); try done.
  by apply elem_of_nil in Hname.
Defined.

Lemma aliased_range : range_of (serializer.Fields example.aliased) example.aliased_fields.
Proof. solve_range. Qed.

Lemma b_only_range :
  range_of ({[ "b" := VString "x" ]} : gmap string Value) [("b", VString "x")].
Proof. solve_range. Qed.

(** C2 as stated fails in its last part: [a] is required, has no default
    and is missing from the payload, and [Deserialize] succeeds, because
    the payload's [b] is stored under the source name [a]. *)
Lemma C2_missing_required_accepted :
  ¬ (∀ (s : serializer.Serializer) (data : gmap string Value) it1 it2 it3 name field,
       range_of (serializer.Fields s) it1 → range_of data it2 →
       range_of (serializer.Fields s) it3 →
       serializer.Fields s !! name = Some field →
       serializer.Required field = true → serializer.Default field = VNil →
       data !! name = None →
       ∃ err, serializer.Deserialize it1 it2 it3 s data = inr err).
Proof.
  intros H.
  destruct (H example.aliased {[ "b" := VString "x" ]}
              example.aliased_fields [("b", VString "x")] example.aliased_fields
              "a" (serializer.WithRequired
                     {| serializer.Name := "a"; serializer.Type_ := string_Type;
                        serializer.Required := false; serializer.ReadOnly := false;
                        serializer.WriteOnly := false; serializer.Default := VNil;
                        serializer.Validators := []; serializer.SourceField := "a";
                        serializer.ErrorMessages := ∅ |})
              aliased_range b_only_range aliased_range)
    as [err Herr]; try reflexivity.
  vm_compute in Herr. discriminate Herr.
Qed.

Example Deserialize_aliased :
  serializer.Deserialize example.aliased_fields [("b", VString "x")] example.aliased_fields
    example.aliased {[ "b" := VString "x" ]}
  = inl {[ "a" := VString "x" ]}.
Proof. vm_compute. reflexivity. Qed.

(** ** Undeclared keys: Validate against Deserialize *)

Lemma validateField_unknown s name value :
  serializer.Fields s !! name = None →
  serializer.validateField s name value = Some (Errorf "field %s not found" [AStr name]).
Proof. intros H. unfold serializer.validateField. by rewrite H. Qed.

Lemma Validate_fields_fail s it name value :
  (name, value) ∈ it → serializer.validateField s name value ≠ None →
  ∃ err, serializer.Validate_fields s it = Some err.
Proof.
  intros Hin Hv. induction it as [|[n v] it IH]; [by apply elem_of_nil in Hin|].
  simpl. destruct (serializer.validateField s n v) eqn:Hnv; [by eexists|].
  apply elem_of_cons in Hin as [[= <- <-]|Hin]; [done|by apply IH].
Qed.

Lemma Deserialize_defaults_delete data it acc key :
  (∀ name field, (name, field) ∈ it → name ≠ key) →
  serializer.Deserialize_defaults (delete key data) it acc
  = serializer.Deserialize_defaults data it acc.
Proof.
  revert acc. induction it as [|[n f] it IH]; intros acc Hne; simpl; [done|].
  assert (Hrest : ∀ name field, (name, field) ∈ it → name ≠ key).
  { intros name field Hin. apply (Hne name field). by right. }
  rewrite lookup_delete_ne by (apply not_eq_sym, (Hne n f); by left).
  rewrite !IH by done. done.
Qed.

Lemma Deserialize_copy_filter s it acc key :
  serializer.Fields s !! key = None →
  serializer.Deserialize_copy s (filter (λ kv, kv.1 ≠ key) it) acc
  = serializer.Deserialize_copy s it acc.
Proof.
  intros Hkey. revert acc. induction it as [|[n v] it IH]; intros acc; [done|].
  rewrite filter_cons. destruct (decide ((n, v).1 ≠ key)) as [Hne|Heq]; simpl.
  - destruct (serializer.Fields s !! n) as [f|]; [|by apply IH].
    destruct (serializer.ReadOnly f); [by apply IH|].
    destruct (serializer.validateField s n v); [done|by apply IH].
  - apply dec_stable in Heq. simpl in Heq. subst n. rewrite Hkey. by apply IH.
Qed.

Lemma range_of_delete {V} (m : gmap string V) it key :
  range_of m it → range_of (delete key m) (filter (λ kv, kv.1 ≠ key) it).
Proof.
  unfold range_of. intros ->.
  assert (Hall : filter (λ kv : string * V, kv.1 ≠ key) (map_to_list (delete key m))
                 = map_to_list (delete key m)).
  { assert (Hf : Forall (λ kv : string * V, kv.1 ≠ key) (map_to_list (delete key m))).
    { apply Forall_forall. intros [k x] Hin. apply elem_of_map_to_list in Hin. simpl.
      intros ->. by rewrite lookup_delete_eq in Hin. }
    induction Hf as [|kv l Hkv Hl IH]; [done|].
    rewrite filter_cons_True by done. by rewrite IH. }
  destruct (m !! key) as [x|] eqn:Hkey.
  - rewrite <- (map_to_list_delete m key x Hkey).
    rewrite filter_cons_False by (simpl; auto). by rewrite Hall.
  - rewrite delete_id in Hall |- * by done. by rewrite Hall.
Qed.

(** C9. When the payload has a key that is not a field of the serializer,
    [validateField] reports that key as not found and [Validate] returns
    an error, whereas [Deserialize] ignores the key: it gives what it
    gives on the payload without that key.  So whenever [Deserialize]
    accepts such a payload, [Validate] refuses it.  This holds for every
    order of the loops. *)
Theorem C9_undeclared_key (s : serializer.Serializer) (data : gmap string Value)
  (key : string) it1 it2 it3 itv :
  range_of (serializer.Fields s) it1 → range_of data it2 →
  is_Some (data !! key) → serializer.Fields s !! key = None →
  (∀ value, serializer.validateField s key value
            = Some (Errorf "field %s not found" [AStr key])) ∧
  (∃ err, serializer.Validate itv it2 s data = Some err) ∧
  range_of (delete key data) (filter (λ kv, kv.1 ≠ key) it2) ∧
  serializer.Deserialize it1 it2 it3 s data
  = serializer.Deserialize it1 (filter (λ kv, kv.1 ≠ key) it2) it3 s (delete key data) ∧
  (∀ result, serializer.Deserialize it1 it2 it3 s data = inl result →
     serializer.Validate itv it2 s data ≠ None).
Proof.
  intros Hit1 Hit2 [value Hvalue] Hkey.
  assert (Hval : ∃ err, serializer.Validate itv it2 s data = Some err).
  { unfold serializer.Validate.
    destruct (serializer.Validate_required data itv); [by eexists|].
    apply (Validate_fields_fail s it2 key value).
    - by apply (range_of_lookup data it2).
    - by rewrite validateField_unknown. }
  split; [intros v; by apply validateField_unknown|].
  split; [done|]. split; [by apply range_of_delete|]. split.
  - unfold serializer.Deserialize.
    rewrite Deserialize_copy_filter by done.
    rewrite Deserialize_defaults_delete; [done|].
    intros name field Hin ->.
    apply (range_of_lookup (serializer.Fields s) it1) in Hin; [|done]. congruence.
  - intros result _. destruct Hval as [err ->]. done.
Qed.

Lemma extra_payload_range :
  range_of ({[ "username" := VString "john"; "email" := VString "john@x.com";
               "extra" := VNum t_int 1 ]} : gmap string Value)
    [("username", VString "john"); ("email", VString "john@x.com");
     ("extra", VNum t_int 1)].
Proof. solve_range. Qed.

Lemma C9_undeclared_key_witness :
  range_of (serializer.Fields example.users_serializer) example.users_serializer_fields ∧
  range_of ({[ "username" := VString "john"; "email" := VString "john@x.com";
               "extra" := VNum t_int 1 ]} : gmap string Value)
    [("username", VString "john"); ("email", VString "john@x.com");
     ("extra", VNum t_int 1)] ∧
  is_Some (({[ "username" := VString "john"; "email" := VString "john@x.com";
               "extra" := VNum t_int 1 ]} : gmap string Value) !! "extra") ∧
  serializer.Fields example.users_serializer !! "extra" = None ∧
  ∃ err,
    serializer.Validate example.users_serializer_fields
      [("username", VString "john"); ("email", VString "john@x.com");
       ("extra", VNum t_int 1)]
      example.users_serializer
      {[ "username" := VString "john"; "email" := VString "john@x.com";
         "extra" := VNum t_int 1 ]} = Some err.
Proof.
  assert (Hsome : is_Some (({[ "username" := VString "john"; "email" := VString "john@x.com";
               "extra" := VNum t_int 1 ]} : gmap string Value) !! "extra")).
  { exists (VNum t_int 1). vm_compute. reflexivity. }
  assert (Hnone : serializer.Fields example.users_serializer !! "extra" = None).
  { vm_compute. reflexivity. }
  split; [exact users_serializer_range|]. split; [exact extra_payload_range|].
  split; [exact Hsome|]. split; [exact Hnone|].
  exact (proj1 (proj2 (C9_undeclared_key example.users_serializer _ "extra"
                         example.users_serializer_fields _
                         example.users_serializer_fields example.users_serializer_fields
                         users_serializer_range extra_payload_range Hsome Hnone))).
Defined.

(** On this payload the two operations disagree: [Deserialize] accepts it
    and drops [extra]; [Validate] reports [extra] as not found. *)
Example Deserialize_accepts_Validate_refuses :
  let it2 := [("username", VString "john"); ("email", VString "john@x.com");
              ("extra", VNum t_int 1)] in
  let data : gmap string Value :=
    {[ "username" := VString "john"; "email" := VString "john@x.com";
       "extra" := VNum t_int 1 ]} in
  serializer.Deserialize example.users_serializer_fields it2 example.users_serializer_fields
    example.users_serializer data
  = inl {[ "username" := VString "john"; "email" := VString "john@x.com" ]} ∧
  serializer.Validate example.users_serializer_fields it2 example.users_serializer data
  = Some (Errorf "field %s not found" [AStr "extra"]).
Proof. split; vm_compute; reflexivity. Qed.

(** A serializer of users whose [password] is write-only: the password
    of the input and its undeclared [extra] key are left out. *)
Example Serialize_hides_password :
  let s := serializer.AddField example.users_serializer "password" string_Type
             [serializer.WithWriteOnly] in
  serializer.Serialize s
    (VMap "map[string]interface {}"
       [(VString "username", VString "john"); (VString "password", VString "secret");
        (VString "extra", VNum t_int 1)])
  = inl {[ "username" := VString "john" ]} ∧
  serializer.Serialize s
    (VPtr "*main.User"
       (Some (VStruct "main.User"
          [({| sf_Name := "Username"; sf_PkgPath := ""; sf_json := "username" |},
            VString "john");
           ({| sf_Name := "Password"; sf_PkgPath := ""; sf_json := "password,omitempty" |},
            VString "secret");
           ({| sf_Name := "Email"; sf_PkgPath := ""; sf_json := "-" |},
            VString "john@x.com");
           ({| sf_Name := "token"; sf_PkgPath := "main"; sf_json := "" |},
            VString "t")])))
  = inl {[ "username" := VString "john" ]} ∧
  serializer.Serialize s (VPtr "*main.User" None)
  = inr (Errorf "data must be a struct, a map, or a pointer to a struct" []).
Proof. repeat split; vm_compute; reflexivity. Qed.

(** * Further properties *)

(** ** Statements of createTable and CreateTables *)

Lemma omap_map_ext {A B C} (g : B → option C) (g' : A → option C) (h : A → B) (l : list A) :
  (∀ x, g (h x) = g' x) → omap g (map h l) = omap g' l.
Proof.
  intros Hext. induction l as [|a l IH]; [done|].
  change (omap g (map h (a :: l)))
    with (match g (h a) with Some y => y :: omap g (map h l) | None => omap g (map h l) end).
  change (omap g' (a :: l))
    with (match g' a with Some y => y :: omap g' l | None => omap g' l end).
  by rewrite Hext, IH.
Qed.

Section Statements.
Context {Store : Type}.
Variable driver_Exec : Store → string → list Value → Store * (orm.Result + error).
Variable fmt_v : Value → string.

Lemma createTable_loop_closed drv it columns primaryKeys foreignKeys :
  orm.createTable_loop fmt_v drv it columns primaryKeys foreignKeys
  = (columns ++ map (λ nf, orm.column_def fmt_v drv nf.1 nf.2) it,
     primaryKeys ++ pk_names it,
     foreignKeys ++ fk_clauses it).
Proof.
  revert columns primaryKeys foreignKeys.
  induction it as [|[name field] it IH]; intros columns primaryKeys foreignKeys.
  - by rewrite !app_nil_r.
  - cbn [orm.createTable_loop]. rewrite IH. unfold pk_names, fk_clauses. cbn.
    destruct (models.PrimaryKey field), (models.ForeignKey_ field); cbn;
      repeat apply (f_equal2 pair); rewrite <- ?app_assoc; reflexivity.
Qed.

Lemma createTable_query_closed drv it (model : models.Model) :
  orm.createTable_query fmt_v drv it model
  = "CREATE TABLE IF NOT EXISTS " +:+ models.TableName model +:+ " (" +:+
    orm.Join (map (λ nf, orm.column_def fmt_v drv nf.1 nf.2) it
              ++ match pk_names it with
                 | [] => []
                 | _ :: _ => ["PRIMARY KEY (" +:+ orm.Join (pk_names it) ", " +:+ ")"]
                 end
              ++ fk_clauses it) ", " +:+ ")".
Proof.
  unfold orm.createTable_query. rewrite createTable_loop_closed. cbn [app].
  destruct (pk_names it) as [|pk pks] eqn:Hpk.
  - rewrite bool_decide_eq_false_2 by (simpl; lia). done.
  - rewrite bool_decide_eq_true_2 by (simpl; lia). by rewrite <- app_assoc.
Qed.

(** X1. The statement of [createTable] lists one column definition per
    field in the order of the loop, then, when some field is a primary
    key, a single PRIMARY KEY clause naming all of them in that order,
    then one FOREIGN KEY clause per field that carries a foreign key. *)
Theorem createTable_statement drv it (model : models.Model) :
  orm.createTable_query fmt_v drv it model
  = "CREATE TABLE IF NOT EXISTS " +:+ models.TableName model +:+ " (" +:+
    orm.Join (map (λ nf, orm.column_def fmt_v drv nf.1 nf.2) it
              ++ match pk_names it with
                 | [] => []
                 | _ :: _ => ["PRIMARY KEY (" +:+ orm.Join (pk_names it) ", " +:+ ")"]
                 end
              ++ fk_clauses it) ", " +:+ ")".
Proof. exact (createTable_query_closed drv it model). Qed.

(** X2. On every driver other than mysql the auto-increment flag of a
    field leaves no trace in the CREATE TABLE statement: clearing the
    flag of every field gives the same statement. *)
Theorem createTable_ignores_AutoIncrement drv it (model : models.Model) :
  drv ≠ "mysql" →
  orm.createTable_query fmt_v drv (map (λ nf, (nf.1, without_AutoIncrement nf.2)) it) model
  = orm.createTable_query fmt_v drv it model.
Proof.
  intros Hdrv. rewrite !createTable_query_closed.
  assert (Hcols : map (λ nf, orm.column_def fmt_v drv nf.1 nf.2)
                    (map (λ nf, (nf.1, without_AutoIncrement nf.2)) it)
                  = map (λ nf, orm.column_def fmt_v drv nf.1 nf.2) it).
  { rewrite map_map. apply map_ext. intros [name f]. cbn [fst snd].
    unfold orm.column_def.
    rewrite (bool_decide_eq_false_2 _ Hdrv), !andb_false_r. reflexivity. }
  assert (Hpk : pk_names (map (λ nf, (nf.1, without_AutoIncrement nf.2)) it) = pk_names it).
  { unfold pk_names. by apply omap_map_ext. }
  assert (Hfk : fk_clauses (map (λ nf, (nf.1, without_AutoIncrement nf.2)) it)
                = fk_clauses it).
  { unfold fk_clauses. by apply omap_map_ext. }
  by rewrite Hcols, Hpk, Hfk.
Qed.

End Statements.

(** ** Statements of CreateTables, Create, Update and Delete *)

Section Writes.
Context {Store : Type}.
Variable driver_Exec : Store → string → list Value → Store * (orm.Result + error).
Variable fmt_v : Value → string.
Implicit Types (o : @orm.ORM Store).



Lemma Create_loop_closed drv tableName (fields : gmap string models.Field) it :
  (∀ column value, (column, value) ∈ it → is_Some (fields !! column)) →
  ∀ columns placeholders values i,
    orm.Create_loop drv tableName fields it columns placeholders values i
    = inr (columns ++ it.*1,
           placeholders ++ map (orm.placeholder drv) (seqZ i (Z.of_nat (length it))),
           values ++ it.*2).
Proof.
  induction it as [|[column value] it IH]; intros Hall columns placeholders values i.
  - simpl. by rewrite !app_nil_r.
  - cbn [orm.Create_loop]. destruct (Hall column value) as [f ->]; [by left|].
    rewrite IH by (intros c v Hin; apply (Hall c v); by right).
    cbn [length fmap list_fmap fst snd].
    rewrite (seqZ_cons i) by lia. cbn [map].
    replace (Z.pred (Z.of_nat (S (length it)))) with (Z.of_nat (length it)) by lia.
    replace (Z.succ i) with (i + 1)%Z by lia.
    by rewrite <- !app_assoc.
Qed.

(** X4. When the table is registered and every key of the payload is a
    field of its model, [Create] executes exactly one statement: an
    INSERT that names the payload's keys in the order of the loop, with
    one placeholder per key ([?], or [$1] to [$n] on postgres), and
    passes the payload's values in the same order.  It returns the row
    identifier the driver reports, or the driver's error. *)
Theorem Create_statement o tableName (model : models.Model) it :
  orm.models_ o !! tableName = Some model →
  (∀ column value, (column, value) ∈ it → is_Some (models.Fields model !! column)) →
  let query :=
    "INSERT INTO " +:+ tableName +:+ " (" +:+ orm.Join it.*1 ", " +:+ ") VALUES (" +:+
    orm.Join (map (orm.placeholder (orm.driver o)) (seqZ 1 (Z.of_nat (length it)))) ", " +:+ ")" in
  let o' := (orm.Create driver_Exec it o tableName).1 in
  orm.executed (orm.db o') = orm.executed (orm.db o) ++ [(query, it.*2)] ∧
  orm.store (orm.db o') = (driver_Exec (orm.store (orm.db o)) query it.*2).1 ∧
  orm.models_ o' = orm.models_ o ∧
  (orm.Create driver_Exec it o tableName).2
  = match (driver_Exec (orm.store (orm.db o)) query it.*2).2 with
    | inl result => orm.LastInsertId result
    | inr err => inr err
    end.
Proof.
  intros Hreg Hall. cbv zeta. unfold orm.Create. rewrite Hreg.
  rewrite (Create_loop_closed _ _ _ _ Hall). cbn [app].
  unfold orm.Exec. by destruct (driver_Exec _ _ _) as [st [res|err]].
Qed.

Lemma Update_loop_closed drv tableName primaryKey (fields : gmap string models.Field) it :
  (∀ column value, (column, value) ∈ it → is_Some (fields !! column)) →
  ∀ setStatements values i,
    let rows := filter (λ kv, kv.1 ≠ primaryKey) it in
    orm.Update_loop drv tableName primaryKey fields it setStatements values i
    = inr (setStatements
             ++ zip_with (λ kv j, kv.1 +:+ " = " +:+ orm.placeholder drv j)
                  rows (seqZ i (Z.of_nat (length rows))),
           values ++ rows.*2,
           (i + Z.of_nat (length rows))%Z).
Proof.
  induction it as [|[column value] it IH]; intros Hall setStatements values i.
  - cbn. rewrite !app_nil_r. f_equal. apply (f_equal2 pair); [done|lia].
  - cbv zeta. cbn [orm.Update_loop]. destruct (Hall column value) as [f ->]; [by left|].
    assert (Hrest : ∀ c v, (c, v) ∈ it → is_Some (fields !! c)).
    { intros c v Hin. apply (Hall c v). by right. }
    rewrite filter_cons. cbn [fst].
    case_bool_decide as Hpk.
    + subst column. rewrite decide_False by auto. by apply IH.
    + rewrite decide_True by done. rewrite (IH Hrest). cbv zeta.
      cbn [length fmap list_fmap snd].
      rewrite (seqZ_cons i) by lia. cbn [zip_with fst].
      replace (Z.pred (Z.of_nat
                 (S (length (filter (λ kv : string * Value, kv.1 ≠ primaryKey) it)))))
        with (Z.of_nat (length (filter (λ kv : string * Value, kv.1 ≠ primaryKey) it)))
        by lia.
      replace (Z.succ i) with (i + 1)%Z by lia.
      f_equal. apply (f_equal2 pair); [apply (f_equal2 pair)|lia];
        by rewrite <- app_assoc.
Qed.

(** X5. When the table is registered, the loop over its fields finds a
    primary key and every key of the payload is a field, [Update]
    executes exactly one statement: an UPDATE whose SET list has the
    payload's keys other than the primary key, in the order of the loop
    and with consecutive placeholders, and whose WHERE clause compares
    the primary key with the next placeholder; the arguments are the
    values of those keys followed by the identifier.  The primary key is
    never assigned, and an empty or key-only payload still executes the
    statement, with an empty SET list. *)
Theorem Update_statement o tableName (model : models.Model) itf it id :
  orm.models_ o !! tableName = Some model →
  orm.primaryKey_loop itf ≠ "" →
  (∀ column value, (column, value) ∈ it → is_Some (models.Fields model !! column)) →
  let primaryKey := orm.primaryKey_loop itf in
  let rows := filter (λ kv, kv.1 ≠ primaryKey) it in
  let query :=
    "UPDATE " +:+ tableName +:+ " SET " +:+
    orm.Join (zip_with (λ kv j, kv.1 +:+ " = " +:+ orm.placeholder (orm.driver o) j)
                rows (seqZ 1 (Z.of_nat (length rows)))) ", " +:+
    " WHERE " +:+ primaryKey +:+ " = " +:+
    orm.placeholder (orm.driver o) (1 + Z.of_nat (length rows)) in
  let o' := (orm.Update driver_Exec itf it o tableName id).1 in
  orm.executed (orm.db o') = orm.executed (orm.db o) ++ [(query, rows.*2 ++ [id])] ∧
  orm.store (orm.db o') = (driver_Exec (orm.store (orm.db o)) query (rows.*2 ++ [id])).1 ∧
  orm.models_ o' = orm.models_ o ∧
  (orm.Update driver_Exec itf it o tableName id).2
  = match (driver_Exec (orm.store (orm.db o)) query (rows.*2 ++ [id])).2 with
    | inl _ => None
    | inr err => Some err
    end.
Proof.
  intros Hreg Hpk Hall. cbv zeta. unfold orm.Update. rewrite Hreg.
  rewrite (bool_decide_eq_false_2 _ Hpk).
  rewrite (Update_loop_closed _ _ _ _ _ Hall). cbv zeta. cbn [app].
  unfold orm.Exec. by destruct (driver_Exec _ _ _) as [st [res|err]].
Qed.

(** X6. [Delete] returns an error and executes nothing when the table is
    not registered or the loop over the fields finds no primary key;
    otherwise it executes exactly one statement, a DELETE on that table
    filtered by the primary key, with the identifier as its only
    argument, and returns the driver's error, if any. *)
Theorem Delete_statement o tableName itf id :
  (orm.models_ o !! tableName = None →
     orm.Delete driver_Exec itf o tableName id
     = (o, Some (Errorf "model %s not registered" [AStr tableName]))) ∧
  (is_Some (orm.models_ o !! tableName) → orm.primaryKey_loop itf = "" →
     orm.Delete driver_Exec itf o tableName id
     = (o, Some (Errorf "model %s has no primary key" [AStr tableName]))) ∧
  (is_Some (orm.models_ o !! tableName) → orm.primaryKey_loop itf ≠ "" →
     let query := "DELETE FROM " +:+ tableName +:+ " WHERE " +:+ orm.primaryKey_loop itf
                  +:+ " = " +:+ orm.placeholder (orm.driver o) 1 in
     let o' := (orm.Delete driver_Exec itf o tableName id).1 in
     orm.executed (orm.db o') = orm.executed (orm.db o) ++ [(query, [id])] ∧
     orm.store (orm.db o') = (driver_Exec (orm.store (orm.db o)) query [id]).1 ∧
     orm.models_ o' = orm.models_ o ∧
     (orm.Delete driver_Exec itf o tableName id).2
     = match (driver_Exec (orm.store (orm.db o)) query [id]).2 with
       | inl _ => None
       | inr err => Some err
       end).
Proof.
  unfold orm.Delete. split; [by intros ->|]. split.
  - intros [model ->] ->. done.
  - intros [model ->] Hpk. rewrite (bool_decide_eq_false_2 _ Hpk). cbv zeta.
    assert (Hph : (if bool_decide (orm.driver o = "postgres") then "$1" else "?")
                  = orm.placeholder (orm.driver o) 1).
    { unfold orm.placeholder. by case_bool_decide. }
    rewrite Hph. unfold orm.Exec. by destruct (driver_Exec _ _ _) as [st [res|err]].
Qed.

End Writes.

(** ** Primary keys: declaration, validation and choice *)

Lemma Validate_None (m : models.Model) it :
  range_of (models.Fields m) it →
  models.Validate it m = None ↔
  ∃ n f, models.Fields m !! n = Some f ∧ models.PrimaryKey f = true.
Proof.
  intros Hit. unfold models.Validate.
  assert (Hpk : models.hasPrimaryKey it = true ↔
                ∃ n f, models.Fields m !! n = Some f ∧ models.PrimaryKey f = true).
  { rewrite hasPrimaryKey_true. split; intros (n & f & H1 & H2); exists n, f; split; try done.
    - by apply (range_of_lookup _ it).
    - by apply (range_of_lookup (models.Fields m)). }
  destruct (decide (size (models.Fields m) = 0%nat)) as [Hz|Hnz].
  - split; [done|]. intros (n & f & Hn & _).
    apply map_size_empty_inv in Hz. rewrite Hz in Hn. by rewrite lookup_empty in Hn.
  - destruct (models.hasPrimaryKey it) eqn:Hh; simpl.
    + split; [|done]. intros _. by apply Hpk.
    + split; [done|]. intros Hex. apply Hpk in Hex. done.
Qed.

Lemma models_option_PrimaryKey option (f : models.Field) :
  models_option option →
  option = models.WithPrimaryKey ∧ models.PrimaryKey (option f) = true ∨
  option ≠ models.WithPrimaryKey ∧ models.PrimaryKey (option f) = models.PrimaryKey f.
Proof.
  assert (Hsep : ∀ option' : models.option_,
            (∀ g, models.PrimaryKey (option' g) = models.PrimaryKey g) →
            option' ≠ models.WithPrimaryKey).
  { intros option' Hkeep Heq.
    specialize (Hkeep example.username_field). rewrite Heq in Hkeep. discriminate Hkeep. }
  intros [| | | | v | n | a b c d]; [by left|right..]; (split; [by apply Hsep|done]).
Qed.

Lemma models_options_PrimaryKey options (f : models.Field) :
  Forall models_option options →
  models.PrimaryKey (fold_left (λ g option, option g) options f) = true ↔
  models.PrimaryKey f = true ∨ models.WithPrimaryKey ∈ options.
Proof.
  intros Hstd. revert f. induction Hstd as [|option options Hopt Hstd IH]; intros f; simpl.
  - split; [by left|]. intros [?|Hin]; [done|by apply elem_of_nil in Hin].
  - rewrite IH. destruct (models_option_PrimaryKey option f Hopt) as [[-> Hp]|[Hne Hp]].
    + split; [intros _; right; by left|intros _; by left].
    + rewrite Hp. split.
      * intros [?|Hin]; [by left|right; by right].
      * intros [?|Hin]; [by left|]. apply elem_of_cons in Hin as [?|Hin]; [done|by right].
Qed.

(** X7. After [AddField(name, type, options...)] on a model, with options
    of package [models], the model passes [Validate] exactly when
    [WithPrimaryKey] is among the options or some other field of the
    model is a primary key.  The field stored before under [name] does
    not count: adding a primary-key field again without the option
    removes the primary key. *)
Theorem models_AddField_Validate (m : models.Model) name fieldType options it :
  Forall models_option options →
  range_of (models.Fields (models.AddField m name fieldType options)) it →
  models.Validate it (models.AddField m name fieldType options) = None ↔
  models.WithPrimaryKey ∈ options ∨
  ∃ other f, other ≠ name ∧ models.Fields m !! other = Some f ∧
    models.PrimaryKey f = true.
Proof.
  intros Hstd Hit. rewrite (Validate_None _ _ Hit). unfold models.AddField. cbn [models.Fields].
  set (fresh := {| models.Name := name; models.Type_ := fieldType;
                   models.PrimaryKey := false; models.AutoIncrement := false;
                   models.Unique := false; models.NotNull := false;
                   models.Default := VNil; models.MaxLength := 0;
                   models.ForeignKey_ := None |}).
  pose proof (models_options_PrimaryKey options fresh Hstd) as Hpk.
  split.
  - intros (n & f & Hn & Hf). destruct (decide (n = name)) as [->|Hne].
    + rewrite lookup_insert_eq in Hn. injection Hn as <-.
      apply Hpk in Hf as [Hf|Hin]; [done|by left].
    + rewrite lookup_insert_ne in Hn by done. right. by exists n, f.
  - intros [Hin|(other & f & Hne & Hother & Hf)].
    + exists name. eexists. split; [apply lookup_insert_eq|]. apply Hpk. by right.
    + exists other, f. split; [|done]. by rewrite lookup_insert_ne.
Qed.

Lemma primaryKey_loop_first it :
  (∃ n f, (n, f) ∈ it ∧ models.PrimaryKey f = true) →
  ∃ f, (orm.primaryKey_loop it, f) ∈ it ∧ models.PrimaryKey f = true.
Proof.
  induction it as [|[n f] it IH]; intros (n' & f' & Hin & Hf).
  - by apply elem_of_nil in Hin.
  - simpl. destruct (models.PrimaryKey f) eqn:Hpk.
    + exists f. split; [by left|done].
    + apply elem_of_cons in Hin as [[= -> ->]|Hin]; [congruence|].
      destruct IH as [g [Hg Hgp]]; [by eauto|]. exists g. split; [by right|done].
Qed.

Lemma primaryKey_loop_none it :
  (∀ n f, (n, f) ∈ it → models.PrimaryKey f = true → n = "") →
  orm.primaryKey_loop it = "".
Proof.
  induction it as [|[n f] it IH]; intros Hall; [done|]. simpl.
  destruct (models.PrimaryKey f) eqn:Hpk.
  - apply (Hall n f); [by left|done].
  - apply IH. intros n' f' Hin. apply (Hall n' f'). by right.
Qed.

(** X8. For a model that has a primary-key field and whose primary-key
    fields all have a non-empty name, the key that [Update], [Delete]
    and [Get] pick is the name of one of its primary-key fields, for
    every order of their loop over the fields; when the model has a
    single primary-key field, it is that field. *)
Theorem primaryKey_choice (m : models.Model) itf :
  range_of (models.Fields m) itf →
  (∃ n f, models.Fields m !! n = Some f ∧ models.PrimaryKey f = true) →
  (∀ n f, models.Fields m !! n = Some f → models.PrimaryKey f = true → n ≠ "") →
  (∃ f, models.Fields m !! orm.primaryKey_loop itf = Some f ∧
     models.PrimaryKey f = true) ∧
  orm.primaryKey_loop itf ≠ "" ∧
  (∀ pk, (∀ n f, models.Fields m !! n = Some f → models.PrimaryKey f = true → n = pk) →
     orm.primaryKey_loop itf = pk).
Proof.
  intros Hit (n & f & Hn & Hf) Hnames.
  destruct (primaryKey_loop_first itf) as [g [Hg Hgp]].
  { exists n, f. split; [|done]. by apply (range_of_lookup (models.Fields m)). }
  apply (range_of_lookup (models.Fields m) itf) in Hg; [|done].
  split; [by exists g|]. split; [by apply (Hnames _ g)|].
  intros pk Hsingle. by apply (Hsingle _ g).
Qed.

Section EmptyName.
Context {Store : Type}.
Variable driver_Exec : Store → string → list Value → Store * (orm.Result + error).

(** X9. A model whose primary-key fields are all stored under the empty
    name passes [RegisterModel], having a primary key; yet on the ORM
    that holds it, [Update] and [Delete] on its table fail with
    "has no primary key" and execute nothing, because they take the
    empty name for the absence of a key. *)
Theorem empty_named_primary_key (o : @orm.ORM Store) (m : models.Model)
  it itf it2 id :
  range_of (models.Fields m) it → range_of (models.Fields m) itf →
  (∃ f, models.Fields m !! "" = Some f ∧ models.PrimaryKey f = true) →
  (∀ n f, models.Fields m !! n = Some f → models.PrimaryKey f = true → n = "") →
  let o' := (orm.RegisterModel it o m).1 in
  let no_key := Some (Errorf "model %s has no primary key" [AStr (models.TableName m)]) in
  (orm.RegisterModel it o m).2 = None ∧
  orm.Update driver_Exec itf it2 o' (models.TableName m) id = (o', no_key) ∧
  orm.Delete driver_Exec itf o' (models.TableName m) id = (o', no_key).
Proof.
  intros Hit Hitf (f & Hf & Hpk) Hall. cbv zeta.
  assert (Hval : models.Validate it m = None).
  { apply (Validate_None m it Hit). by exists "", f. }
  assert (Hkey : orm.primaryKey_loop itf = "").
  { apply primaryKey_loop_none. intros n g Hin. apply Hall.
    by apply (range_of_lookup (models.Fields m) itf). }
  unfold orm.RegisterModel. rewrite Hval. cbn [fst snd]. split; [done|].
  unfold orm.Update, orm.Delete. cbn [orm.models_].
  rewrite lookup_insert_eq, Hkey. done.
Qed.

End EmptyName.

(** ** Options of serializer fields *)

Lemma last_call_cons {A} (pick : serializer_call → option A) d c calls :
  last_call pick d (c :: calls)
  = last_call pick (default d (pick c)) calls.
Proof.
  unfold last_call.
  change (omap pick (c :: calls))
    with (match pick c with Some y => y :: omap pick calls | None => omap pick calls end).
  destruct (pick c) as [y|]; [|done]. rewrite last_cons. simpl.
  by destruct (last (omap pick calls)).
Qed.

Lemma fold_calls (calls : list serializer_call) (f : serializer.Field) :
  let g := fold_left (λ f option, option f) (map call_option calls) f in
  serializer.Name g = serializer.Name f ∧
  serializer.Type_ g = serializer.Type_ f ∧
  serializer.Required g
  = serializer.Required f
    || existsb (λ c, match c with CallRequired => true | _ => false end) calls ∧
  serializer.ReadOnly g
  = serializer.ReadOnly f
    || existsb (λ c, match c with CallReadOnly => true | _ => false end) calls ∧
  serializer.WriteOnly g
  = serializer.WriteOnly f
    || existsb (λ c, match c with CallWriteOnly => true | _ => false end) calls ∧
  serializer.Validators g = serializer.Validators f ++ call_validators calls ∧
  serializer.Default g
  = last_call (λ c, match c with CallDefault v => Some v | _ => None end)
      (serializer.Default f) calls ∧
  serializer.SourceField g
  = last_call (λ c, match c with CallSourceField n => Some n | _ => None end)
      (serializer.SourceField f) calls.
Proof.
  cbv zeta. revert f. induction calls as [|c calls IH]; intros f.
  - cbn. rewrite !orb_false_r, app_nil_r. done.
  - cbn [map fold_left]. destruct (IH (call_option c f)) as (H1 & H2 & H3 & H4 & H5 & H6 & H7 & H8).
    rewrite H1, H2, H3, H4, H5, H6, H7, H8, !last_call_cons.
    unfold call_validators.
    change (omap ?p (c :: calls))
      with (match p c with Some y => y :: omap p calls | None => omap p calls end).
    cbn [existsb].
    destruct c; cbn; rewrite ?orb_true_r, ?orb_false_r, <- ?app_assoc; done.
Qed.

(** X10. [AddField] with options of package [serializer] stores under
    [name] a field that is required, read-only or write-only exactly
    when the corresponding option is among them, whose validators are
    those passed by [WithValidator] in the order of the calls, whose
    default is that of the last [WithDefault] (none when there is no
    such call), and whose source field is that of the last
    [WithSourceField] ([name] when there is none).  With the order of
    validation of [validateField], the validators run in the order in
    which the options were passed. *)
Theorem serializer_AddField_options (s : serializer.Serializer) name fieldType
  (calls : list serializer_call) :
  ∃ field,
    serializer.Fields (serializer.AddField s name fieldType (map call_option calls)) !! name
    = Some field ∧
    serializer.Name field = name ∧ serializer.Type_ field = fieldType ∧
    serializer.Required field
    = existsb (λ c, match c with CallRequired => true | _ => false end) calls ∧
    serializer.ReadOnly field
    = existsb (λ c, match c with CallReadOnly => true | _ => false end) calls ∧
    serializer.WriteOnly field
    = existsb (λ c, match c with CallWriteOnly => true | _ => false end) calls ∧
    serializer.Validators field = call_validators calls ∧
    serializer.Default field
    = last_call (λ c, match c with CallDefault v => Some v | _ => None end) VNil calls ∧
    serializer.SourceField field
    = last_call (λ c, match c with CallSourceField n => Some n | _ => None end) name calls ∧
    (∀ value, TypeOf value = Some fieldType →
       serializer.validateField
         (serializer.AddField s name fieldType (map call_option calls)) name value
       = serializer.run_validators (call_validators calls) value).
Proof.
  unfold serializer.AddField. cbn [serializer.Fields]. eexists.
  split; [apply lookup_insert_eq|].
  match goal with |- context [fold_left _ _ ?f0] =>
    destruct (fold_calls calls f0) as (H1 & H2 & H3 & H4 & H5 & H6 & H7 & H8) end.
  cbn in H1, H2, H3, H4, H5, H6, H7, H8.
  split; [done|]. split; [done|]. split; [done|]. split; [done|]. split; [done|].
  split; [done|]. split; [done|]. split; [done|].
  intros value Hty. unfold serializer.validateField. cbn [serializer.Fields].
  rewrite lookup_insert_eq, H2. cbn.
  rewrite (bool_decide_eq_false_2 (TypeOf value ≠ Some fieldType)) by auto.
  cbn. by rewrite H6.
Qed.

(** ** Validate, and what it promises about Deserialize *)

Lemma Validate_required_None data it :
  serializer.Validate_required data it = None ↔
  ∀ name field, (name, field) ∈ it → serializer.Required field = true →
    is_Some (data !! name).
Proof.
  induction it as [|[n f] it IH]; simpl.
  - split; [|done]. intros _ name field Hin. by apply elem_of_nil in Hin.
  - destruct (serializer.Required f) eqn:Hreq.
    + destruct (data !! n) eqn:Hn.
      * rewrite IH. split.
        -- intros H name field Hin Hr. apply elem_of_cons in Hin as [[= -> ->]|Hin].
           ++ by eexists.
           ++ by apply (H name field).
        -- intros H name field Hin. apply (H name field). by right.
      * split; [done|]. intros H. destruct (H n f) as [x Hx]; [by left|done|congruence].
    + rewrite IH. split.
      * intros H name field Hin Hr. apply elem_of_cons in Hin as [[= -> ->]|Hin].
        -- congruence.
        -- by apply (H name field).
      * intros H name field Hin. apply (H name field). by right.
Qed.

Lemma Validate_fields_None s it :
  serializer.Validate_fields s it = None ↔
  ∀ name value, (name, value) ∈ it → serializer.validateField s name value = None.
Proof.
  induction it as [|[n v] it IH]; simpl.
  - split; [|done]. intros _ name value Hin. by apply elem_of_nil in Hin.
  - destruct (serializer.validateField s n v) eqn:Hv.
    + split; [done|]. intros H. rewrite (H n v) in Hv; [done|by left].
    + rewrite IH. split.
      * intros H name value Hin. apply elem_of_cons in Hin as [[= -> ->]|Hin]; [done|].
        by apply H.
      * intros H name value Hin. apply H. by right.
Qed.

Lemma Validate_None_iff (s : serializer.Serializer) (data : gmap string Value) it1 it2 :
  range_of (serializer.Fields s) it1 → range_of data it2 →
  serializer.Validate it1 it2 s data = None ↔
  (∀ name field, serializer.Fields s !! name = Some field →
     serializer.Required field = true → is_Some (data !! name)) ∧
  (∀ name value, data !! name = Some value →
     is_Some (serializer.Fields s !! name) ∧
     serializer.validateField s name value = None).
Proof.
  intros Hit1 Hit2. unfold serializer.Validate.
  destruct (serializer.Validate_required data it1) as [err|] eqn:Hreq.
  - split; [done|]. intros [Hr _].
    assert (Hnone : serializer.Validate_required data it1 = None); [|congruence].
    apply Validate_required_None. intros name field Hin. apply Hr.
    by apply (range_of_lookup (serializer.Fields s) it1).
  - rewrite Validate_fields_None. split.
    + intros Hf. split.
      * intros name field Hname. apply (proj1 (Validate_required_None data it1) Hreq).
        by apply (range_of_lookup (serializer.Fields s)).
      * intros name value Hd.
        assert (Hv : serializer.validateField s name value = None).
        { apply Hf. by apply (range_of_lookup data). }
        split; [|done]. unfold serializer.validateField in Hv.
        by destruct (serializer.Fields s !! name).
    + intros [_ Hf] name value Hin. apply Hf. by apply (range_of_lookup data it2).
Qed.

(** X11. [Validate] accepts a payload exactly when the payload has every
    required field under the field's own name and every key of the
    payload passes [validateField]; so whether it accepts does not
    depend on the order of its loops, and it accepts no payload with a
    key outside the field set. *)
Theorem Validate_accepts (s : serializer.Serializer) (data : gmap string Value) it1 it2 :
  range_of (serializer.Fields s) it1 → range_of data it2 →
  serializer.Validate it1 it2 s data = None ↔
  (∀ name field, serializer.Fields s !! name = Some field →
     serializer.Required field = true → is_Some (data !! name)) ∧
  (∀ name value, data !! name = Some value →
     is_Some (serializer.Fields s !! name) ∧
     serializer.validateField s name value = None).
Proof. exact (Validate_None_iff s data it1 it2). Qed.

Lemma Validate_implies_Deserialize (s : serializer.Serializer) (data : gmap string Value)
  itv it1 it2 it3 :
  range_of (serializer.Fields s) itv → range_of data it2 →
  range_of (serializer.Fields s) it3 →
  (∀ name field, serializer.Fields s !! name = Some field →
     serializer.Required field = true → serializer.ReadOnly field = false) →
  serializer.Validate itv it2 s data = None →
  ∃ result, serializer.Deserialize it1 it2 it3 s data = inl result ∧
    ∀ name field, is_Some (data !! name) → copied s name field →
      is_Some (result !! serializer.SourceField field).
Proof.
  intros Hitv Hit2 Hit3 Hrw Hval.
  apply (Validate_None_iff s data itv it2 Hitv Hit2) in Hval as [Hreq Hfields].
  unfold serializer.Deserialize.
  destruct (proj2 (Deserialize_copy_inr s it2 (serializer.Deserialize_defaults data it1 ∅)))
    as [result Hres].
  { intros name value field Hin _. apply Hfields. by apply (range_of_lookup data it2). }
  rewrite Hres.
  assert (Hwrites : ∀ name field, is_Some (data !! name) → copied s name field →
            is_Some (result !! serializer.SourceField field)).
  { intros name field [v Hv] Hc.
    apply (Deserialize_copy_writes _ _ _ _ name v field Hres); [|done].
    by apply (range_of_lookup data it2). }
  assert (Hnone : serializer.Deserialize_required it3 result = None).
  { apply Deserialize_required_None. intros name field Hin Hr.
    apply (range_of_lookup (serializer.Fields s) it3) in Hin; [|done].
    apply (Hwrites name field); [by apply (Hreq name field)|].
    split; [done|]. by apply (Hrw name field). }
  rewrite Hnone. by exists result.
Qed.

(** X12. When no field of the serializer is both required and read-only,
    every payload that [Validate] accepts is accepted by [Deserialize],
    whose result then holds, for each key of the payload that is not
    read-only, an entry under the field's source name. *)
Theorem Validate_then_Deserialize (s : serializer.Serializer) (data : gmap string Value)
  itv it1 it2 it3 :
  range_of (serializer.Fields s) itv → range_of data it2 →
  range_of (serializer.Fields s) it3 →
  (∀ name field, serializer.Fields s !! name = Some field →
     serializer.Required field = true → serializer.ReadOnly field = false) →
  serializer.Validate itv it2 s data = None →
  ∃ result, serializer.Deserialize it1 it2 it3 s data = inl result ∧
    ∀ name field, is_Some (data !! name) → copied s name field →
      is_Some (result !! serializer.SourceField field).
Proof. exact (Validate_implies_Deserialize s data itv it1 it2 it3). Qed.

(** ** Serialize on maps *)

Lemma Serialize_map_lookup s it acc k :
  NoDup it.*1 →
  serializer.Serialize_map s (map (λ kv, (VString kv.1, kv.2)) it) acc !! k
  = if is_visible s k
    then match (list_to_map it : gmap string Value) !! k with
         | Some v => Some v
         | None => acc !! k
         end
    else acc !! k.
Proof.
  revert acc. induction it as [|[n v] it IH]; intros acc Hnd.
  - cbn. rewrite lookup_empty. by destruct (is_visible s k).
  - apply NoDup_cons in Hnd as [Hn Hnd]. cbn [map serializer.Serialize_map fst snd].
    cbn [serializer.Value_String]. cbn [list_to_map foldr uncurry fst snd].
    assert (Hskip : is_visible s n = false →
              (if is_visible s k
               then match (<[n:=v]> (list_to_map it) : gmap string Value) !! k with
                    | Some v0 => Some v0
                    | None => acc !! k
                    end
               else acc !! k)
              = (if is_visible s k
                 then match (list_to_map it : gmap string Value) !! k with
                      | Some v0 => Some v0
                      | None => acc !! k
                      end
                 else acc !! k)).
    { intros Hvis. destruct (decide (n = k)) as [->|Hne].
      - by rewrite Hvis.
      - by rewrite lookup_insert_ne. }
    unfold is_visible in Hskip at 1.
    destruct (serializer.Fields s !! n) as [field|] eqn:Hfield.
    + destruct (serializer.WriteOnly field) eqn:Hw.
      * rewrite IH by done. by rewrite Hskip.
      * rewrite IH by done. destruct (decide (n = k)) as [->|Hne].
        -- rewrite lookup_insert_eq.
           rewrite (not_elem_of_list_to_map_1 it k Hn).
           rewrite lookup_insert_eq. unfold is_visible. by rewrite Hfield, Hw.
        -- by rewrite !lookup_insert_ne by done.
    + rewrite IH by done. by rewrite Hskip.
Qed.

Lemma Serialize_map_filter (s : serializer.Serializer) (data : gmap string Value) it :
  range_of data it →
  serializer.Serialize s (map_value it)
  = inl (filter (λ kv, is_visible s kv.1 = true) data).
Proof.
  intros Hit. unfold map_value.
  transitivity (inl (B := error)
                  (serializer.Serialize_map s (map (λ kv, (VString kv.1, kv.2)) it) ∅));
    [reflexivity|].
  f_equal. apply map_eq. intros k.
  rewrite Serialize_map_lookup by (by apply (range_of_NoDup data)).
  rewrite (range_of_to_map _ _ Hit), lookup_empty.
  destruct (data !! k) as [v|] eqn:Hk.
  - destruct (is_visible s k) eqn:Hvis.
    + symmetry. by apply map_lookup_filter_Some.
    + symmetry. apply map_lookup_filter_None. right. intros v' Hv'. cbn. congruence.
  - destruct (is_visible s k); symmetry; apply map_lookup_filter_None; by left.
Qed.

(** X13. On a map, [Serialize] returns the map restricted to the keys
    that are fields of the serializer and not write-only, each with its
    value, whatever the order of the keys. *)
Theorem Serialize_map_value (s : serializer.Serializer) (data : gmap string Value) it :
  range_of data it →
  serializer.Serialize s (map_value it)
  = inl (filter (λ kv, is_visible s kv.1 = true) data).
Proof. exact (Serialize_map_filter s data it). Qed.

(** ** Serializers derived from a model *)

Lemma Deserialize_defaults_none data it acc :
  (∀ name field, (name, field) ∈ it → serializer.Default field = VNil) →
  serializer.Deserialize_defaults data it acc = acc.
Proof.
  revert acc. induction it as [|[n f] it IH]; intros acc Hnil; simpl; [done|].
  assert (Hrest : ∀ name field, (name, field) ∈ it → serializer.Default field = VNil).
  { intros name field Hin. apply (Hnil name field). by right. }
  rewrite (Hnil n f) by (by left). simpl.
  destruct (serializer.ReadOnly f); by apply IH.
Qed.

(** X14. On a serializer that [New] derived from a model, a payload that
    [Validate] accepts goes through unchanged: [Deserialize] returns the
    payload itself, and [Serialize] of the payload as a map returns it
    too.  This holds for every order of the loops. *)
Theorem New_passes_valid_payload (model : models.Model) (data : gmap string Value)
  itm itv it1 it2 it3 :
  range_of (models.Fields model) itm →
  let s := serializer.New itm model in
  range_of (serializer.Fields s) itv → range_of (serializer.Fields s) it1 →
  range_of data it2 → range_of (serializer.Fields s) it3 →
  serializer.Validate itv it2 s data = None →
  serializer.Deserialize it1 it2 it3 s data = inl data ∧
  serializer.Serialize s (map_value it2) = inl data.
Proof.
  intros Hitm s Hitv Hit1 Hit2 Hit3 Hval.
  assert (Hnew : ∀ name field, serializer.Fields s !! name = Some field →
            ∃ mf, field = serializer.New_field name mf).
  { intros name field Hf. unfold s in Hf. rewrite (New_lookup _ _ _ Hitm) in Hf.
    destruct (models.Fields model !! name) as [mf|]; [|done].
    injection Hf as <-. by exists mf. }
  pose proof (proj1 (Validate_None_iff s data itv it2 Hitv Hit2) Hval) as [_ Hfields].
  split.
  - destruct (Validate_implies_Deserialize s data itv it1 it2 it3 Hitv Hit2 Hit3)
      as (result & Hres & Hwrites); [|done|].
    { intros name field Hf _. by destruct (Hnew name field Hf) as [mf ->]. }
    rewrite Hres. f_equal. apply map_eq. intros k.
    unfold serializer.Deserialize in Hres.
    rewrite Deserialize_defaults_none in Hres.
    2:{ intros name field Hin.
        apply (range_of_lookup (serializer.Fields s) it1) in Hin; [|done].
        by destruct (Hnew name field Hin) as [mf ->]. }
    destruct (serializer.Deserialize_copy s it2 ∅) as [err|result'] eqn:Hcopy; [done|].
    assert (result' = result) as ->.
    { destruct (serializer.Deserialize_required it3 result'); congruence. }
    assert (Hfrom : ∀ v, result !! k = Some v → data !! k = Some v).
    { intros v Hv.
      destruct (Deserialize_copy_Some _ _ _ _ _ _ Hcopy Hv)
        as [Hacc|(name & field & Hin & [Hf _] & Hsrc)].
      - by rewrite lookup_empty in Hacc.
      - destruct (Hnew name field Hf) as [mf ->]. cbn in Hsrc. subst name.
        by apply (range_of_lookup data it2). }
    destruct (data !! k) as [v|] eqn:Hk.
    + destruct (Hfields k v Hk) as [[field Hf] _].
      destruct (Hnew k field Hf) as [mf ->].
      destruct (Hwrites k (serializer.New_field k mf)) as [v' Hv']; [by eexists|done|].
      cbn in Hv'. rewrite Hv'. symmetry. by apply Hfrom.
    + destruct (result !! k) as [v|] eqn:Hr; [|done]. by specialize (Hfrom v eq_refl).
  - rewrite (Serialize_map_filter s data it2 Hit2). f_equal.
    apply map_filter_id. intros k v Hk. cbn.
    destruct (Hfields k v Hk) as [[field Hf] _]. unfold is_visible. rewrite Hf.
    by destruct (Hnew k field Hf) as [mf ->].
Qed.

(** X15. On a serializer that [New] derived from a model, a field of type
    string with max_length > 0 accepts exactly the strings of at most
    max_length bytes: [validateField] refuses longer strings, values of
    any other type, and nil (also when the field is not required). *)
Theorem New_bounded_string (model : models.Model) itm name modelField (value : Value) :
  range_of (models.Fields model) itm →
  models.Fields model !! name = Some modelField →
  models.Type_ modelField = string_Type →
  (0 < models.MaxLength modelField)%Z →
  serializer.validateField (serializer.New itm model) name value = None ↔
  ∃ str, value = VString str ∧ (serializer.len str ≤ models.MaxLength modelField)%Z.
Proof.
  intros Hitm Hname Hty Hlen. unfold serializer.validateField.
  rewrite (New_lookup _ _ _ Hitm), Hname. cbn [fmap option_fmap option_map].
  cbn [serializer.Type_ serializer.Validators serializer.New_field].
  rewrite Hty. cbn [reflect.type_Kind string_Type reflect.basic].
  rewrite (bool_decide_eq_true_2 (0 < _)%Z) by done.
  rewrite (bool_decide_eq_true_2 (reflect.String = reflect.String)) by done.
  cbn [andb]. rewrite (bool_decide_eq_false_2 (string_Type = time_Time_Type)) by done.
  destruct (decide (TypeOf value = Some string_Type)) as [Heq|Hne].
  - rewrite (bool_decide_eq_false_2 (TypeOf value ≠ _)) by auto. cbn [andb].
    cbn [serializer.run_validators].
    destruct value; try (split; [done|by intros (? & ? & _)]).
    cbn [serializer.MaxLengthValidator]. case_bool_decide; split; try done.
    + intros (str & [= <-] & ?). lia.
    + intros _. exists s. split; [done|lia].
  - rewrite (bool_decide_eq_true_2 (TypeOf value ≠ _)) by done.
    destruct value; cbn [is_nil negb andb serializer.run_validators
                         serializer.MaxLengthValidator];
      (split; [done|by intros (? & ? & _)]).
Qed.

(** ** Read-only and write-only fields *)

Lemma Deserialize_defaults_delete_ro data it acc key :
  (∀ field, (key, field) ∈ it → serializer.ReadOnly field = true) →
  serializer.Deserialize_defaults (delete key data) it acc
  = serializer.Deserialize_defaults data it acc.
Proof.
  revert acc. induction it as [|[n f] it IH]; intros acc Hro; simpl; [done|].
  assert (Hrest : ∀ field, (key, field) ∈ it → serializer.ReadOnly field = true).
  { intros field Hin. apply Hro. by right. }
  destruct (serializer.ReadOnly f) eqn:Hf; [by apply IH|].
  assert (Hne : n ≠ key).
  { intros ->. rewrite (Hro f) in Hf; [done|by left]. }
  rewrite lookup_delete_ne by done. rewrite !IH by done. done.
Qed.

Lemma Deserialize_copy_filter_ro s it acc key field :
  serializer.Fields s !! key = Some field → serializer.ReadOnly field = true →
  serializer.Deserialize_copy s (filter (λ kv, kv.1 ≠ key) it) acc
  = serializer.Deserialize_copy s it acc.
Proof.
  intros Hkey Hro. revert acc. induction it as [|[n v] it IH]; intros acc; [done|].
  rewrite filter_cons. destruct (decide ((n, v).1 ≠ key)) as [Hne|Heq]; simpl.
  - destruct (serializer.Fields s !! n) as [f|]; [|by apply IH].
    destruct (serializer.ReadOnly f); [by apply IH|].
    destruct (serializer.validateField s n v); [done|by apply IH].
  - apply dec_stable in Heq. simpl in Heq. subst n. rewrite Hkey, Hro. by apply IH.
Qed.

(** X16. A payload cannot set a read-only field: when [key] is a
    read-only field of the serializer, [Deserialize] gives what it gives
    on the payload without [key], the value under [key] being neither
    validated nor copied. *)
Theorem ReadOnly_ignores_payload (s : serializer.Serializer) (data : gmap string Value)
  key field it1 it2 it3 :
  range_of (serializer.Fields s) it1 → range_of data it2 →
  serializer.Fields s !! key = Some field → serializer.ReadOnly field = true →
  range_of (delete key data) (filter (λ kv, kv.1 ≠ key) it2) ∧
  serializer.Deserialize it1 it2 it3 s data
  = serializer.Deserialize it1 (filter (λ kv, kv.1 ≠ key) it2) it3 s (delete key data).
Proof.
  intros Hit1 Hit2 Hkey Hro. split; [by apply range_of_delete|].
  unfold serializer.Deserialize.
  rewrite (Deserialize_copy_filter_ro s it2 _ key field Hkey Hro).
  rewrite Deserialize_defaults_delete_ro; [done|].
  intros f Hin. apply (range_of_lookup (serializer.Fields s) it1) in Hin; [|done].
  congruence.
Qed.

Lemma serializer_AddField_options_aux (s : serializer.Serializer) name fieldType
  (calls : list serializer_call) :
  ∃ field,
    serializer.Fields (serializer.AddField s name fieldType (map call_option calls)) !! name
    = Some field ∧
    serializer.WriteOnly field
    = existsb (λ c, match c with CallWriteOnly => true | _ => false end) calls.
Proof.
  unfold serializer.AddField. cbn [serializer.Fields]. eexists.
  split; [apply lookup_insert_eq|].
  match goal with |- context [fold_left _ _ ?f0] =>
    destruct (fold_calls calls f0) as (_ & _ & _ & _ & H5 & _) end.
  exact H5.
Qed.

Lemma Serialize_visible s data result :
  serializer.Serialize s data = inl result → visible_keys s result.
Proof.
  unfold serializer.Serialize. destruct (_ && _); [done|].
  repeat case_bool_decide; intros [= <-];
    auto using Serialize_struct_visible, Serialize_map_visible, visible_keys_empty.
Qed.

(** X17. A field added with [WithWriteOnly] among its options never
    appears in what [Serialize] returns, whatever the other options, the
    field stored before under that name and the input. *)
Theorem AddField_WriteOnly_hidden (s : serializer.Serializer) name fieldType
  (calls : list serializer_call) (data : Value) result :
  existsb (λ c, match c with CallWriteOnly => true | _ => false end) calls = true →
  serializer.Serialize (serializer.AddField s name fieldType (map call_option calls)) data
  = inl result →
  result !! name = None.
Proof.
  intros Hw Hres. apply Serialize_visible in Hres.
  destruct (result !! name) as [v|] eqn:Hname; [|done].
  destruct (Hres name) as (field & Hf & Hfw); [by eexists|].
  destruct (serializer_AddField_options_aux s name fieldType calls)
    as (field' & Hf' & Hw').
  rewrite Hf' in Hf. injection Hf as <-. congruence.
Qed.

(** ** EmailValidator *)

Lemma HasPrefix_spec s prefix :
  serializer.HasPrefix s prefix = true ↔ ∃ rest, s = prefix +:+ rest.
Proof.
  revert s. induction prefix as [|a prefix IH]; intros s.
  - split; [intros _; by exists s|intros _; by destruct s].
  - destruct s as [|b s]; cbn [serializer.HasPrefix].
    + split; [done|]. by intros [rest ?].
    + rewrite andb_true_iff, bool_decide_eq_true, IH. split.
      * intros [-> [rest ->]]. by exists rest.
      * intros [rest [= -> ->]]. split; [done|by exists rest].
Qed.

Lemma Contains_spec s substr :
  serializer.Contains s substr = true ↔ ∃ before after, s = before +:+ substr +:+ after.
Proof.
  induction s as [|c s IH].
  - cbn [serializer.Contains]. rewrite orb_false_r, HasPrefix_spec. split.
    + intros [rest Hrest]. by exists "", rest.
    + intros ([|c before] & after & Heq); [by exists after|done].
  - cbn [serializer.Contains]. rewrite orb_true_iff, HasPrefix_spec, IH. split.
    + intros [[rest Hrest]|(before & after & ->)].
      * by exists "", rest.
      * by exists (String c before), after.
    + intros ([|c' before] & after & Heq).
      * left. by exists after.
      * right. injection Heq as -> ->. by exists before, after.
Qed.

(** X18. [EmailValidator] accepts exactly the strings that contain the
    byte [@]; it refuses every value that is not a string. *)
Theorem EmailValidator_accepts (value : Value) :
  serializer.EmailValidator value = None ↔
  ∃ before after, value = VString (before +:+ "@" +:+ after).
Proof.
  unfold serializer.EmailValidator.
  destruct value; try (split; [done|by intros (? & ? & ?)]).
  destruct (serializer.Contains s "@") eqn:Hc; cbn [negb].
  - split; [|done]. intros _. apply Contains_spec in Hc as (before & after & ->). by eauto.
  - split; [done|]. intros (before & after & [= ->]).
    assert (serializer.Contains (before +:+ "@" +:+ after) "@" = true); [|congruence].
    apply Contains_spec. by eauto.
Qed.

(** ** Splitting at a separator *)

Lemma Split_nonempty s sep : serializer.Split s sep ≠ [].
Proof.
  destruct s as [|c r]; cbn [serializer.Split]; [done|].
  case_bool_decide; [done|]. by destruct (serializer.Split r sep).
Qed.

Lemma Split_cons_sep s sep :
  serializer.Split (String sep s) sep = "" :: serializer.Split s sep.
Proof. cbn [serializer.Split]. by rewrite bool_decide_eq_true_2. Qed.

Lemma Split_cons_other c s sep :
  c ≠ sep →
  ∃ part parts, serializer.Split s sep = part :: parts ∧
    serializer.Split (String c s) sep = String c part :: parts.
Proof.
  intros Hne. cbn [serializer.Split]. rewrite bool_decide_eq_false_2 by done.
  destruct (serializer.Split s sep) as [|part parts] eqn:Hs; [by apply Split_nonempty in Hs|].
  by exists part, parts.
Qed.

Lemma Split_app_sep a b sep :
  serializer.Split (a +:+ String sep b) sep
  = serializer.Split a sep ++ serializer.Split b sep.
Proof.
  induction a as [|c a IH].
  - change ("" +:+ String sep b) with (String sep b). by rewrite Split_cons_sep.
  - change (String c a +:+ String sep b) with (String c (a +:+ String sep b)).
    destruct (decide (c = sep)) as [->|Hne].
    + by rewrite !Split_cons_sep, IH.
    + destruct (Split_cons_other c (a +:+ String sep b) sep Hne) as (p & ps & Hs & ->).
      destruct (Split_cons_other c a sep Hne) as (q & qs & Ha & ->).
      rewrite IH, Ha in Hs. simpl in Hs. injection Hs as <- <-. done.
Qed.

Lemma free_of_cons sep c s :
  free_of sep (String c s) ↔ c ≠ sep ∧ free_of sep s.
Proof.
  split.
  - intros Hfree. split.
    + intros ->. by apply (Hfree "" s).
    + intros before after ->. by apply (Hfree (String c before) after).
  - intros [Hne Hfree] [|c' before] after Heq.
    + injection Heq as -> _. done.
    + injection Heq as -> ->. by apply (Hfree before after).
Qed.

Lemma Split_free s sep : free_of sep s → serializer.Split s sep = [s].
Proof.
  induction s as [|c s IH]; intros Hfree; [done|].
  apply free_of_cons in Hfree as [Hne Hfree].
  destruct (Split_cons_other c s sep Hne) as (p & ps & Hs & ->).
  rewrite (IH Hfree) in Hs. by injection Hs as <- <-.
Qed.

Lemma last_sep s sep :
  free_of sep s ∨ ∃ before after, s = before +:+ String sep after ∧ free_of sep after.
Proof.
  induction s as [|c s IH].
  - left. by intros [|] ?.
  - destruct IH as [Hfree|(before & after & -> & Hfree)].
    + destruct (decide (c = sep)) as [->|Hne].
      * right. by exists "", s.
      * left. by apply free_of_cons.
    + right. by exists (String c before), after.
Qed.

Lemma Join_Split s sep :
  orm.Join (serializer.Split s sep) (String sep "") = s.
Proof.
  induction s as [|c s IH]; [done|].
  destruct (decide (c = sep)) as [->|Hne].
  - rewrite Split_cons_sep.
    destruct (serializer.Split s sep) as [|p ps] eqn:Hs; [by apply Split_nonempty in Hs|].
    change (orm.Join ("" :: p :: ps) (String sep ""))
      with ("" +:+ String sep "" +:+ orm.Join (p :: ps) (String sep "")).
    by rewrite IH.
  - destruct (Split_cons_other c s sep Hne) as (p & ps & Hs & ->).
    rewrite Hs in IH. destruct ps as [|q ps].
    + cbn in IH |- *. by rewrite IH.
    + change (orm.Join (String c p :: q :: ps) (String sep ""))
        with (String c (p +:+ String sep "" +:+ orm.Join (q :: ps) (String sep ""))).
      change (orm.Join (p :: q :: ps) (String sep ""))
        with (p +:+ String sep "" +:+ orm.Join (q :: ps) (String sep "")) in IH.
      by rewrite IH.
Qed.

(** The decomposition at the last separator is unique. *)
Lemma last_sep_unique sep before after before' after' :
  free_of sep after → free_of sep after' →
  before +:+ String sep after = before' +:+ String sep after' →
  before = before' ∧ after = after'.
Proof.
  intros Hfree Hfree'. revert before'.
  induction before as [|c before IH]; intros [|c' before'] Heq.
  - by injection Heq as ->.
  - injection Heq as <- ->. by destruct (Hfree before' after').
  - injection Heq as -> <-. by destruct (Hfree' before after).
  - injection Heq as -> Heq. by destruct (IH before' Heq) as [-> ->].
Qed.

(** ** The identifier of a URL *)

(** X19. [extractIDFromURL] returns what follows the last slash of the
    path, or the whole path when it has no slash; the result has no
    slash, and it is empty exactly when the path is empty or ends with a
    slash. *)
Theorem extractIDFromURL_last_segment (path : string) :
  let id := api.extractIDFromURL path in
  free_of "/" id ∧
  (path = id ∧ free_of "/" path ∨ ∃ before, path = before +:+ "/" +:+ id) ∧
  (id = "" ↔ path = "" ∨ ∃ before, path = before +:+ "/").
Proof.
  cbv zeta. unfold api.extractIDFromURL.
  rewrite bool_decide_eq_false_2.
  2:{ pose proof (Split_nonempty path "/"). by destruct (serializer.Split path "/"). }
  assert (Hid : free_of "/" path ∧ default "" (last (serializer.Split path "/")) = path ∨
                ∃ before after, path = before +:+ String "/" after ∧ free_of "/" after ∧
                  default "" (last (serializer.Split path "/")) = after).
  { destruct (last_sep path "/") as [Hfree|(before & after & -> & Hfree)].
    - left. split; [done|]. by rewrite (Split_free _ _ Hfree).
    - right. exists before, after. split; [done|]. split; [done|].
      rewrite Split_app_sep, (Split_free _ _ Hfree). by rewrite last_snoc. }
  destruct Hid as [[Hfree ->]|(before & after & -> & Hfree & ->)].
  - split; [done|]. split; [by left|]. split; [by left|].
    intros [?|[before ->]]; [done|]. by destruct (Hfree before "").
  - split; [done|]. split; [right; by exists before|]. split.
    + intros ->. right. by exists before.
    + intros [Heq|[before' Heq]].
      * by destruct before.
      * destruct (last_sep_unique "/" before after before' "" Hfree) as [_ ?]; try done.
        by intros [|] ?.
Qed.

(** ** Patterns of routes *)

Lemma extractPathParams_loop_closed parts params :
  router.extractPathParams_loop parts params
  = params ++ segment_params parts.
Proof.
  revert params. induction parts as [|part parts IH]; intros params.
  - by rewrite app_nil_r.
  - cbn [router.extractPathParams_loop]. unfold segment_params.
    change (omap ?p (part :: parts))
      with (match p part with Some y => y :: omap p parts | None => omap p parts end).
    cbn beta. destruct (serializer.HasPrefix part ":"); rewrite IH; [|done].
    by rewrite <- app_assoc.
Qed.

Lemma segment_params_app parts1 parts2 :
  segment_params (parts1 ++ parts2) = segment_params parts1 ++ segment_params parts2.
Proof.
  unfold segment_params. induction parts1 as [|part parts1 IH]; [done|].
  change (omap ?p ((part :: parts1) ++ parts2))
    with (match p part with
          | Some y => y :: omap p (parts1 ++ parts2)
          | None => omap p (parts1 ++ parts2)
          end).
  change (omap ?p (part :: parts1))
    with (match p part with Some y => y :: omap p parts1 | None => omap p parts1 end).
  cbn beta. destruct (serializer.HasPrefix part ":"); by rewrite IH.
Qed.

Lemma HasSuffix_spec s suffix :
  router.HasSuffix s suffix = true ↔ ∃ before, s = before +:+ suffix.
Proof.
  induction s as [|c s IH]; cbn [router.HasSuffix].
  - rewrite orb_false_r, bool_decide_eq_true. split.
    + intros <-. by exists "".
    + intros [[|c before] Heq]; [done|done].
  - rewrite orb_true_iff, bool_decide_eq_true, IH. split.
    + intros [<-|[before ->]]; [by exists ""|by exists (String c before)].
    + intros [[|c' before] Heq]; [by left|]. right. injection Heq as -> ->. by eexists.
Qed.

(** X20. A pattern none of whose segments starts with a colon has no path
    parameters, and its expression is the pattern itself between [^]
    and [$]. *)
Theorem static_pattern (pattern : string) :
  (∀ part, part ∈ serializer.Split pattern "/" → serializer.HasPrefix part ":" = false) →
  router.extractPathParams pattern = [] ∧
  router.patternToRegex pattern = "^" +:+ pattern +:+ "$".
Proof.
  intros Hstatic. split.
  - unfold router.extractPathParams. rewrite extractPathParams_loop_closed. cbn [app].
    unfold segment_params. induction (serializer.Split pattern "/") as [|part parts IH]; [done|].
    change (omap ?p (part :: parts))
      with (match p part with Some y => y :: omap p parts | None => omap p parts end).
    cbn beta. rewrite (Hstatic part) by (by left). apply IH. intros p Hp. apply Hstatic. by right.
  - unfold router.patternToRegex. cbv zeta.
    assert (Hmap : map (λ part, if serializer.HasPrefix part ":" then "([^/]+)" else part)
                     (serializer.Split pattern "/")
                   = serializer.Split pattern "/").
    { induction (serializer.Split pattern "/") as [|part parts IH]; [done|].
      cbn [map]. rewrite (Hstatic part) by (by left). f_equal.
      apply IH. intros p Hp. apply Hstatic. by right. }
    by rewrite Hmap, (Join_Split pattern "/").
Qed.

(** X21. The pattern under which [Group.Handle] registers a route has
    as path parameters those of the group's prefix followed by those of
    the route's pattern, whether or not the prefix ends with a slash and
    the pattern starts with one. *)
Theorem Group_pattern_path_params (prefix pattern : string) :
  router.extractPathParams (router.Group_fullPattern prefix pattern)
  = router.extractPathParams prefix ++ router.extractPathParams pattern.
Proof.
  unfold router.Group_fullPattern. cbv zeta.
  unfold router.extractPathParams. rewrite !extractPathParams_loop_closed.
  cbn [app].
  set (pattern' := if serializer.HasPrefix pattern "/" then router.from_1 pattern else pattern).
  assert (Hpat : segment_params (serializer.Split pattern "/")
                 = segment_params (serializer.Split pattern' "/")).
  { unfold pattern'. destruct (serializer.HasPrefix pattern "/") eqn:Hp; [|done].
    apply HasPrefix_spec in Hp as [rest ->].
    change ("/" +:+ rest) with (String "/" rest). by rewrite Split_cons_sep. }
  rewrite Hpat. destruct (router.HasSuffix prefix "/") eqn:Hs; cbn [negb].
  - apply HasSuffix_spec in Hs as [before ->].
    rewrite append_assoc. change ("/" +:+ pattern') with (String "/" pattern').
    rewrite !Split_app_sep, !segment_params_app. by rewrite app_nil_r.
  - rewrite append_assoc. change ("/" +:+ pattern') with (String "/" pattern').
    by rewrite Split_app_sep, segment_params_app.
Qed.

Example Group_fullPattern_versioned :
  router.Group_fullPattern "/api/:version/" "/users/:id" = "/api/:version/users/:id" ∧
  router.Group_fullPattern "/api/:version" "users/:id" = "/api/:version/users/:id" ∧
  router.extractPathParams "/api/:version/users/:id" = ["version"; "id"].
Proof. repeat split; vm_compute; reflexivity. Qed.

(** ** The default serializer of package api *)

Lemma filter_visible_lookup s (m : gmap string Value) k :
  filter (λ kv : string * Value, is_visible s kv.1 = true) m !! k
  = if is_visible s k then m !! k else None.
Proof.
  destruct (m !! k) as [v|] eqn:Hk.
  - destruct (is_visible s k) eqn:Hvis.
    + by apply map_lookup_filter_Some.
    + apply map_lookup_filter_None. right. intros v' Hv'. cbn. congruence.
  - destruct (is_visible s k); apply map_lookup_filter_None; by left.
Qed.

Lemma Serialize_struct_filter s fields (acc full : gmap string Value) :
  acc = filter (λ kv, is_visible s kv.1 = true) full →
  serializer.Serialize_struct s fields acc
  = filter (λ kv, is_visible s kv.1 = true) (api.Serialize_struct fields full).
Proof.
  revert acc full. induction fields as [|[field v] fields IH]; intros acc full Hacc; [done|].
  cbn [serializer.Serialize_struct api.Serialize_struct].
  case_bool_decide; [by apply IH|]. cbv zeta.
  destruct (if bool_decide (sf_json field ≠ "") then _ else _) as [name|]; [|by apply IH].
  assert (Hinv : is_visible s name = false →
            acc = filter (λ kv, is_visible s kv.1 = true) (<[name := v]> full)).
  { intros Hvis. subst acc. apply map_eq. intros k. rewrite !filter_visible_lookup.
    destruct (decide (name = k)) as [->|Hne].
    - by rewrite Hvis.
    - by rewrite lookup_insert_ne. }
  unfold is_visible in Hinv at 1.
  destruct (serializer.Fields s !! name) as [serializerField|] eqn:Hname.
  - destruct (serializer.WriteOnly serializerField) eqn:Hw.
    + apply IH. by apply Hinv.
    + apply IH. subst acc. apply map_eq. intros k. rewrite !filter_visible_lookup.
      destruct (decide (name = k)) as [->|Hne].
      * rewrite !lookup_insert_eq. unfold is_visible. by rewrite Hname, Hw.
      * rewrite !lookup_insert_ne by done. by rewrite filter_visible_lookup.
  - apply IH. by apply Hinv.
Qed.

(** X22. Where the default serializer of package api serializes an
    input, a serializer of package serializer returns the same mapping
    restricted to its fields that are not write-only.  The default
    serializer refuses every map and every pointer to a map, which the
    other accepts: the rows that [Get] and [Query] return as maps cannot
    be serialized by the default serializer. *)
Theorem DefaultSerializer_Serialize (s : serializer.Serializer) (data : Value) :
  (∀ full, api.Serialize data = inl full →
     serializer.Serialize s data
     = inl (filter (λ kv, is_visible s kv.1 = true) full)) ∧
  (serializer.map_like data →
     api.Serialize data = inr (Errorf "data must be a struct or a pointer to a struct" []) ∧
     ∃ result, serializer.Serialize s data = inl result).
Proof.
  split.
  - intros full. unfold api.Serialize, serializer.Serialize. cbv zeta.
    set (val := if bool_decide (ValueKind data = reflect.Ptr)
                then serializer.Elem data else data).
    case_bool_decide as Hk; [done|]. intros [= <-].
    rewrite (bool_decide_eq_true_2 _ Hk). cbn [andb]. f_equal.
    apply Serialize_struct_filter. apply map_eq. intros k.
    by rewrite filter_visible_lookup, lookup_empty; destruct (is_visible s k).
  - intros Hmap.
    assert (Hkind : ValueKind (if bool_decide (ValueKind data = reflect.Ptr)
                               then serializer.Elem data else data) = reflect.Map).
    { destruct Hmap as [Hk|(tname & target & -> & Hk)].
      - rewrite bool_decide_eq_false_2; [done|]. rewrite Hk. done.
      - done. }
    split.
    + unfold api.Serialize. cbv zeta. rewrite Hkind. done.
    + unfold serializer.Serialize. cbv zeta. rewrite Hkind. by eexists.
Qed.

(** X23. The default serializer's [Validate] accepts every payload that
    [Validate] of the serializer derived from the same model accepts,
    provided the payload gives no string for a field of type
    [time.Time] (which only the derived serializer lets through). *)
Theorem DefaultSerializer_Validate_weaker (model : models.Model) (data : gmap string Value)
  itm itv it2 itd :
  range_of (models.Fields model) itm →
  range_of (serializer.Fields (serializer.New itm model)) itv →
  range_of data it2 →
  range_of (models.Fields model) itd →
  (∀ name modelField str, models.Fields model !! name = Some modelField →
     models.Type_ modelField = time_Time_Type → data !! name ≠ Some (VString str)) →
  serializer.Validate itv it2 (serializer.New itm model) data = None →
  api.Validate itd model data = None.
Proof.
  intros Hitm Hitv Hit2 Hitd Htime Hval.
  apply (Validate_None_iff _ data itv it2 Hitv Hit2) in Hval as [Hreq Hfields].
  assert (Hall : ∀ name modelField, (name, modelField) ∈ itd →
            models.Fields model !! name = Some modelField).
  { intros name mf Hin. by apply (range_of_lookup (models.Fields model) itd). }
  unfold api.Validate. clear Hitd.
  induction itd as [|[name mf] itd IH]; [done|].
  assert (Hmf : models.Fields model !! name = Some mf) by (apply Hall; by left).
  assert (Hrest : api.Validate_loop data itd = None).
  { apply IH. intros n f Hin. apply Hall. by right. }
  assert (Hfield : serializer.Fields (serializer.New itm model) !! name
                   = Some (serializer.New_field name mf)).
  { by rewrite (New_lookup _ _ _ Hitm), Hmf. }
  cbn [api.Validate_loop]. destruct (data !! name) as [value|] eqn:Hdata.
  - destruct (Hfields name value Hdata) as [_ Hv].
    unfold serializer.validateField in Hv. rewrite Hfield in Hv.
    cbn [serializer.Type_ serializer.Validators serializer.New_field] in Hv.
    cbv zeta.
    destruct (bool_decide (TypeOf value ≠ Some (models.Type_ mf)) && negb (is_nil value))
      eqn:Hty.
    + case_bool_decide as Ht; [|done].
      destruct value; try done. by destruct (Htime name mf s Hmf Ht).
    + rewrite (andb_comm (bool_decide (reflect.type_Kind _ = _))).
      destruct (bool_decide (0 < models.MaxLength mf)
                && bool_decide (reflect.type_Kind (models.Type_ mf) = reflect.String));
        [|done].
      destruct value; try done.
      cbn [serializer.run_validators serializer.MaxLengthValidator] in Hv.
      by destruct (bool_decide (serializer.len s > models.MaxLength mf)).
  - destruct (models.NotNull mf && is_nil (models.Default mf)) eqn:Hr; [|done].
    destruct (Hreq name (serializer.New_field name mf) Hfield Hr) as [x Hx]. congruence.
Qed.

(** * Instances of the further properties *)

Lemma range_of_map_to_list {V} (m : gmap string V) : range_of m (map_to_list m).
Proof. unfold range_of. reflexivity. Qed.

Lemma valid_payload_range : range_of example.valid_data example.valid_payload.
Proof. solve_range. Qed.

Lemma users_field_cases name modelField :
  models.Fields example.users !! name = Some modelField →
  (name, modelField) ∈ example.users_fields.
Proof. intros H. by apply (range_of_lookup _ _ _ _ users_fields_range). Qed.

Lemma users_serializer_field_cases name field :
  serializer.Fields example.users_serializer !! name = Some field →
  (name, field) ∈ example.users_serializer_fields.
Proof. intros H. by apply (range_of_lookup _ _ _ _ users_serializer_range). Qed.

(** Case analysis on a hypothesis [H : x ∈ [x1; ...; xn]] about pairs. *)
Ltac member_cases H :=
  repeat (apply elem_of_cons in H as [[= -> ->]|H]); [..|by apply elem_of_nil in H].

Lemma createTable_ignores_AutoIncrement_witness :
  "postgres" ≠ "mysql" ∧
  orm.createTable_query (λ _, "") "postgres"
    (map (λ nf, (nf.1, without_AutoIncrement nf.2)) example.users_fields) example.users
  = orm.createTable_query (λ _, "") "postgres" example.users_fields example.users.
Proof.
  split; [done|].
  apply (createTable_ignores_AutoIncrement (λ _, "") "postgres" example.users_fields
           example.users).
  done.
Defined.

Lemma Create_statement_witness :
  orm.models_ example.users_orm !! "users" = Some example.users ∧
  (∀ column value, (column, value) ∈ example.valid_payload →
     is_Some (models.Fields example.users !! column)) ∧
  orm.executed (orm.db (orm.Create example.counting_Exec example.valid_payload
                          example.users_orm "users").1)
  = [("INSERT INTO users (username, email) VALUES (?, ?)",
      [VString "john"; VString "john@x.com"])].
Proof.
  assert (Hall : ∀ column value, (column, value) ∈ example.valid_payload →
            is_Some (models.Fields example.users !! column)).
  { intros column value H. member_cases H; by eexists. }
  split; [reflexivity|]. split; [exact Hall|].
  pose proof (Create_statement example.counting_Exec example.users_orm "users"
                example.users example.valid_payload eq_refl Hall) as H.
  cbv zeta in H. destruct H as [H _]. rewrite H. vm_compute. reflexivity.
Defined.

Lemma Update_statement_witness :
  orm.models_ example.users_orm !! "users" = Some example.users ∧
  orm.primaryKey_loop example.users_fields ≠ "" ∧
  (∀ column value, (column, value) ∈ [("id", VNum t_int 7); ("username", VString "jd")] →
     is_Some (models.Fields example.users !! column)) ∧
  orm.executed (orm.db (orm.Update example.counting_Exec example.users_fields
                          [("id", VNum t_int 7); ("username", VString "jd")]
                          example.users_orm "users" (VNum t_int 1)).1)
  = [("UPDATE users SET username = ? WHERE id = ?", [VString "jd"; VNum t_int 1])].
Proof.
  assert (Hall : ∀ column value,
            (column, value) ∈ [("id", VNum t_int 7); ("username", VString "jd")] →
            is_Some (models.Fields example.users !! column)).
  { intros column value H. member_cases H; by eexists. }
  assert (Hpk : orm.primaryKey_loop example.users_fields ≠ "") by done.
  split; [reflexivity|]. split; [exact Hpk|]. split; [exact Hall|].
  pose proof (Update_statement example.counting_Exec example.users_orm "users"
                example.users example.users_fields
                [("id", VNum t_int 7); ("username", VString "jd")] (VNum t_int 1)
                eq_refl Hpk Hall) as H.
  cbv zeta in H. destruct H as [H _]. rewrite H. vm_compute. reflexivity.
Defined.

Lemma models_AddField_Validate_witness :
  Forall models_option [models.WithPrimaryKey; models.WithAutoIncrement] ∧
  range_of
    (models.Fields
       (models.AddField {| models.TableName := "t"; models.Fields := ∅ |} "id"
          example.int_Type [models.WithPrimaryKey; models.WithAutoIncrement]))
    [("id", example.id_field)] ∧
  models.Validate [("id", example.id_field)]
    (models.AddField {| models.TableName := "t"; models.Fields := ∅ |} "id"
       example.int_Type [models.WithPrimaryKey; models.WithAutoIncrement]) = None.
Proof.
  assert (Hstd : Forall models_option [models.WithPrimaryKey; models.WithAutoIncrement]).
  { repeat constructor. }
  assert (Hit : range_of
    (models.Fields
       (models.AddField {| models.TableName := "t"; models.Fields := ∅ |} "id"
          example.int_Type [models.WithPrimaryKey; models.WithAutoIncrement]))
    [("id", example.id_field)]) by solve_range.
  split; [exact Hstd|]. split; [exact Hit|].
  apply (models_AddField_Validate {| models.TableName := "t"; models.Fields := ∅ |} "id"
           example.int_Type [models.WithPrimaryKey; models.WithAutoIncrement]
           [("id", example.id_field)] Hstd Hit).
  left. by left.
Defined.

Lemma users_key_named name modelField :
  models.Fields example.users !! name = Some modelField →
  models.PrimaryKey modelField = true → name ≠ "".
Proof. intros H Hpk. apply users_field_cases in H. member_cases H; done. Qed.

Lemma primaryKey_choice_witness :
  range_of (models.Fields example.users) example.users_fields ∧
  (∃ n f, models.Fields example.users !! n = Some f ∧ models.PrimaryKey f = true) ∧
  (∀ n f, models.Fields example.users !! n = Some f → models.PrimaryKey f = true → n ≠ "") ∧
  orm.primaryKey_loop example.users_fields ≠ "".
Proof.
  assert (Hpk : ∃ n f, models.Fields example.users !! n = Some f ∧
                  models.PrimaryKey f = true).
  { exists "id", example.id_field. split; reflexivity. }
  split; [exact users_fields_range|]. split; [exact Hpk|]. split; [exact users_key_named|].
  exact (proj1 (proj2 (primaryKey_choice example.users example.users_fields
                         users_fields_range Hpk users_key_named))).
Defined.

Lemma unnamed_key_range :
  range_of (models.Fields example.unnamed_key) [("", example.id_field)].
Proof. solve_range. Qed.

Lemma unnamed_key_only n f :
  models.Fields example.unnamed_key !! n = Some f → models.PrimaryKey f = true → n = "".
Proof.
  intros H _. apply (range_of_lookup _ _ _ _ unnamed_key_range) in H.
  member_cases H; done.
Qed.

Lemma empty_named_primary_key_witness :
  range_of (models.Fields example.unnamed_key) [("", example.id_field)] ∧
  (∃ f, models.Fields example.unnamed_key !! "" = Some f ∧ models.PrimaryKey f = true) ∧
  (∀ n f, models.Fields example.unnamed_key !! n = Some f →
          models.PrimaryKey f = true → n = "") ∧
  (orm.RegisterModel [("", example.id_field)] example.fresh_orm example.unnamed_key).2
  = None.
Proof.
  assert (Hpk : ∃ f, models.Fields example.unnamed_key !! "" = Some f ∧
                  models.PrimaryKey f = true).
  { exists example.id_field. split; reflexivity. }
  split; [exact unnamed_key_range|]. split; [exact Hpk|]. split; [exact unnamed_key_only|].
  exact (proj1 (empty_named_primary_key example.counting_Exec example.fresh_orm
                  example.unnamed_key [("", example.id_field)] [("", example.id_field)]
                  [] VNil unnamed_key_range unnamed_key_range Hpk unnamed_key_only)).
Defined.

Lemma Validate_accepts_witness :
  range_of (serializer.Fields example.users_serializer) example.users_serializer_fields ∧
  range_of example.valid_data example.valid_payload ∧
  ∀ name value, example.valid_data !! name = Some value →
    is_Some (serializer.Fields example.users_serializer !! name).
Proof.
  split; [exact users_serializer_range|]. split; [exact valid_payload_range|].
  intros name value Hname.
  assert (Hval : serializer.Validate example.users_serializer_fields example.valid_payload
                   example.users_serializer example.valid_data = None).
  { vm_compute. reflexivity. }
  apply (Validate_accepts example.users_serializer example.valid_data
           example.users_serializer_fields example.valid_payload
           users_serializer_range valid_payload_range) in Hval as [_ Hfields].
  by destruct (Hfields name value Hname).
Defined.

Lemma users_serializer_writable name field :
  serializer.Fields example.users_serializer !! name = Some field →
  serializer.Required field = true → serializer.ReadOnly field = false.
Proof. intros H _. apply users_serializer_field_cases in H. member_cases H; done. Qed.

Lemma valid_data_validates :
  serializer.Validate example.users_serializer_fields example.valid_payload
    example.users_serializer example.valid_data = None.
Proof. vm_compute. reflexivity. Qed.

Lemma Validate_then_Deserialize_witness :
  range_of (serializer.Fields example.users_serializer) example.users_serializer_fields ∧
  range_of example.valid_data example.valid_payload ∧
  (∀ name field, serializer.Fields example.users_serializer !! name = Some field →
     serializer.Required field = true → serializer.ReadOnly field = false) ∧
  serializer.Validate example.users_serializer_fields example.valid_payload
    example.users_serializer example.valid_data = None ∧
  ∃ result,
    serializer.Deserialize example.users_serializer_fields example.valid_payload
      example.users_serializer_fields example.users_serializer example.valid_data
    = inl result.
Proof.
  split; [exact users_serializer_range|]. split; [exact valid_payload_range|].
  split; [exact users_serializer_writable|]. split; [exact valid_data_validates|].
  destruct (Validate_then_Deserialize example.users_serializer example.valid_data
              example.users_serializer_fields example.users_serializer_fields
              example.valid_payload example.users_serializer_fields
              users_serializer_range valid_payload_range users_serializer_range
              users_serializer_writable valid_data_validates) as (result & Hres & _).
  by exists result.
Defined.

Lemma Serialize_map_value_witness :
  range_of example.valid_data example.valid_payload ∧
  serializer.Serialize example.users_serializer (map_value example.valid_payload)
  = inl (filter (λ kv, is_visible example.users_serializer kv.1 = true) example.valid_data).
Proof.
  split; [exact valid_payload_range|].
  exact (Serialize_map_value example.users_serializer example.valid_data
           example.valid_payload valid_payload_range).
Defined.

Lemma New_passes_valid_payload_witness :
  range_of (models.Fields example.users) example.users_fields ∧
  range_of (serializer.Fields (serializer.New example.users_fields example.users))
    example.users_serializer_fields ∧
  range_of example.valid_data example.valid_payload ∧
  serializer.Validate example.users_serializer_fields example.valid_payload
    (serializer.New example.users_fields example.users) example.valid_data = None ∧
  serializer.Deserialize example.users_serializer_fields example.valid_payload
    example.users_serializer_fields (serializer.New example.users_fields example.users)
    example.valid_data
  = inl example.valid_data.
Proof.
  split; [exact users_fields_range|]. split; [exact users_serializer_range|].
  split; [exact valid_payload_range|]. split; [exact valid_data_validates|].
  exact (proj1 (New_passes_valid_payload example.users example.valid_data
                  example.users_fields example.users_serializer_fields
                  example.users_serializer_fields example.valid_payload
                  example.users_serializer_fields
                  users_fields_range users_serializer_range users_serializer_range
                  valid_payload_range users_serializer_range valid_data_validates)).
Defined.

Lemma New_bounded_string_witness :
  range_of (models.Fields example.users) example.users_fields ∧
  models.Fields example.users !! "username" = Some example.username_field ∧
  models.Type_ example.username_field = string_Type ∧
  (0 < models.MaxLength example.username_field)%Z ∧
  serializer.validateField (serializer.New example.users_fields example.users)
    "username" (VString "john") = None.
Proof.
  split; [exact users_fields_range|]. split; [reflexivity|]. split; [reflexivity|].
  split; [reflexivity|].
  apply (New_bounded_string example.users example.users_fields "username"
           example.username_field (VString "john") users_fields_range eq_refl eq_refl
           eq_refl).
  exists "john". split; [reflexivity|]. vm_compute. discriminate.
Defined.

Lemma id_payload_range :
  range_of ({[ "id" := VNum t_int 9 ]} : gmap string Value) [("id", VNum t_int 9)].
Proof. solve_range. Qed.

Lemma ReadOnly_ignores_payload_witness :
  range_of (serializer.Fields example.readonly_id)
    (map_to_list (serializer.Fields example.readonly_id)) ∧
  range_of ({[ "id" := VNum t_int 9 ]} : gmap string Value) [("id", VNum t_int 9)] ∧
  serializer.Fields example.readonly_id !! "id"
  = Some (serializer.WithReadOnly
            {| serializer.Name := "id"; serializer.Type_ := example.int_Type;
               serializer.Required := false; serializer.ReadOnly := false;
               serializer.WriteOnly := false; serializer.Default := VNil;
               serializer.Validators := []; serializer.SourceField := "id";
               serializer.ErrorMessages := ∅ |}) ∧
  serializer.Deserialize (map_to_list (serializer.Fields example.readonly_id))
    [("id", VNum t_int 9)] [] example.readonly_id {[ "id" := VNum t_int 9 ]}
  = serializer.Deserialize (map_to_list (serializer.Fields example.readonly_id))
      (filter (λ kv, kv.1 ≠ "id") [("id", VNum t_int 9)]) [] example.readonly_id
      (delete "id" {[ "id" := VNum t_int 9 ]}).
Proof.
  split; [apply range_of_map_to_list|]. split; [exact id_payload_range|].
  split; [reflexivity|].
  exact (proj2 (ReadOnly_ignores_payload example.readonly_id {[ "id" := VNum t_int 9 ]}
                  "id" _ (map_to_list (serializer.Fields example.readonly_id))
                  [("id", VNum t_int 9)] []
                  (range_of_map_to_list _) id_payload_range eq_refl eq_refl)).
Defined.

Lemma AddField_WriteOnly_hidden_witness :
  existsb (λ c, match c with CallWriteOnly => true | _ => false end) [CallWriteOnly] = true ∧
  serializer.Serialize
    (serializer.AddField example.users_serializer "password" string_Type
       (map call_option [CallWriteOnly]))
    (map_value [("username", VString "john"); ("password", VString "secret")])
  = inl {[ "username" := VString "john" ]} ∧
  ({[ "username" := VString "john" ]} : gmap string Value) !! "password" = None.
Proof.
  assert (Hres : serializer.Serialize
    (serializer.AddField example.users_serializer "password" string_Type
       (map call_option [CallWriteOnly]))
    (map_value [("username", VString "john"); ("password", VString "secret")])
  = inl {[ "username" := VString "john" ]}).
  { vm_compute. reflexivity. }
  split; [reflexivity|]. split; [exact Hres|].
  exact (AddField_WriteOnly_hidden example.users_serializer "password" string_Type
           [CallWriteOnly] _ _ eq_refl Hres).
Defined.

Lemma static_pattern_witness :
  (∀ part, part ∈ serializer.Split "/api/users" "/" →
           serializer.HasPrefix part ":" = false) ∧
  router.patternToRegex "/api/users" = "^/api/users$".
Proof.
  assert (Hstatic : ∀ part, part ∈ serializer.Split "/api/users" "/" →
                            serializer.HasPrefix part ":" = false).
  { intros part H. vm_compute in H.
    repeat (apply elem_of_cons in H as [->|H]); [done..|by apply elem_of_nil in H]. }
  split; [exact Hstatic|].
  exact (proj2 (static_pattern "/api/users" Hstatic)).
Defined.

Lemma users_no_time name modelField str :
  models.Fields example.users !! name = Some modelField →
  models.Type_ modelField = time_Time_Type →
  example.valid_data !! name ≠ Some (VString str).
Proof. intros H Ht. apply users_field_cases in H. member_cases H; done. Qed.

Lemma DefaultSerializer_Validate_weaker_witness :
  range_of (models.Fields example.users) example.users_fields ∧
  range_of (serializer.Fields (serializer.New example.users_fields example.users))
    example.users_serializer_fields ∧
  range_of example.valid_data example.valid_payload ∧
  (∀ name modelField str, models.Fields example.users !! name = Some modelField →
     models.Type_ modelField = time_Time_Type →
     example.valid_data !! name ≠ Some (VString str)) ∧
  serializer.Validate example.users_serializer_fields example.valid_payload
    (serializer.New example.users_fields example.users) example.valid_data = None ∧
  api.Validate example.users_fields example.users example.valid_data = None.
Proof.
  split; [exact users_fields_range|]. split; [exact users_serializer_range|].
  split; [exact valid_payload_range|]. split; [exact users_no_time|].
  split; [exact valid_data_validates|].
  exact (DefaultSerializer_Validate_weaker example.users example.valid_data
           example.users_fields example.users_serializer_fields example.valid_payload
           example.users_fields users_fields_range users_serializer_range
           valid_payload_range users_fields_range users_no_time valid_data_validates).
Defined.
